(** * api-contract-tester: capture-and-validate pipeline

    Shallow embedding of the fetch interceptor, the response serializer,
    the body-kind classifier, the contract path matcher, the contract
    validator and the register/unregister lifecycle. *)

From Stdlib Require Import String Ascii ZArith Bool.
From stdpp Require Import base list gmap strings.

Open Scope string_scope.
Set Warnings "-register-all".

(* ------------------------------------------------------------------ *)
(** ** JavaScript values *)

(** The runtime values that flow through the pipeline ([unknown] in the
    TypeScript source).  Objects are association lists in insertion order. *)
Inductive JsVal :=
| JUndefined
| JNull
| JBool (b : bool)
| JNum (z : Z)
| JStr (s : string)
| JArr (xs : list JsVal)
| JObj (fields : list (string * JsVal)).

(** [value == null] *)
Definition is_nullish (v : JsVal) : bool :=
  match v with JUndefined | JNull => true | _ => false end.

(** JavaScript truthiness (NaN is not represented). *)
Definition truthy (v : JsVal) : bool :=
  match v with
  | JUndefined | JNull => false
  | JBool b => b
  | JNum z => negb (Z.eqb z 0)
  | JStr s => negb (String.eqb s "")
  | JArr _ | JObj _ => true
  end.

(** Property read [o[k]]: missing properties read as [undefined]. *)
Fixpoint prop (fields : list (string * JsVal)) (k : string) : JsVal :=
  match fields with
  | [] => JUndefined
  | (k', v) :: rest => if String.eqb k k' then v else prop rest k
  end.

(** [x ?? {}] *)
Definition or_empty_obj (v : JsVal) : JsVal :=
  if is_nullish v then JObj [] else v.

(* ------------------------------------------------------------------ *)
(** ** String primitives used by the source *)

(** [s.split(c)] for a one-character separator. *)
Fixpoint split_char (c : ascii) (s : string) : list string :=
  match s with
  | EmptyString => [EmptyString]
  | String a s' =>
      if Ascii.eqb a c then EmptyString :: split_char c s'
      else match split_char c s' with
           | [] => [String a EmptyString]
           | x :: xs => String a x :: xs
           end
  end.

(** [.filter(Boolean)] on a list of strings. *)
Definition filter_nonempty (l : list string) : list string :=
  List.filter (fun s => negb (String.eqb s "")) l.

(** [s.startsWith(p)] *)
Definition startsWith (s p : string) : bool := String.prefix p s.

Definition ascii_upper (a : ascii) : ascii :=
  let n := nat_of_ascii a in
  if (97 <=? n)%nat && (n <=? 122)%nat then ascii_of_nat (n - 32)%nat else a.

Definition ascii_lower (a : ascii) : ascii :=
  let n := nat_of_ascii a in
  if (65 <=? n)%nat && (n <=? 90)%nat then ascii_of_nat (n + 32)%nat else a.

Fixpoint map_chars (f : ascii -> ascii) (s : string) : string :=
  match s with
  | EmptyString => EmptyString
  | String a s' => String (f a) (map_chars f s')
  end.

(** [s.toUpperCase()] / [s.toLowerCase()] on ASCII text. *)
Definition toUpperCase (s : string) : string := map_chars ascii_upper s.
Definition toLowerCase (s : string) : string := map_chars ascii_lower s.

(* ------------------------------------------------------------------ *)
(** ** Contracts (src/src/config/types.ts) *)

Definition JsonSchema := list (string * JsVal).

Record ContractDefinition := {
  method : string;
  path : string;
  requestSchema : option JsonSchema;
  requestQuerySchema : option JsonSchema;
  requestHeadersSchema : option JsonSchema;
  requestCookiesSchema : option JsonSchema;
  responseSchema : option JsonSchema;
  allowedResponseStatusCodes : option (list Z);
  responseHeadersSchema : option JsonSchema;
  responseCookiesSchema : option JsonSchema;
  label : option string
}.

(* ------------------------------------------------------------------ *)
(** ** Path matching (src/src/validation/reporting.ts) *)

(** The [for] loop of [matchPathPattern], run over the pattern segments
    alongside the path segments (their lengths are equal there). *)
Fixpoint segments_match (patternSegments pathSegments : list string) : bool :=
  match patternSegments, pathSegments with
  | p :: ps, s :: ss =>
      if startsWith p ":" then segments_match ps ss
      else if negb (String.eqb p s) then false
      else segments_match ps ss
  | _, _ => true
  end.

Definition matchPathPattern (pathname pattern : string) : bool :=
  let pathSegments := filter_nonempty (split_char "/" pathname) in
  let patternSegments := filter_nonempty (split_char "/" pattern) in
  if negb (Nat.eqb (length pathSegments) (length patternSegments)) then false
  else segments_match patternSegments pathSegments.

Fixpoint findContract_loop (normalizedMethod pathname : string)
    (contracts : list ContractDefinition) : option ContractDefinition :=
  match contracts with
  | [] => None
  | contract :: rest =>
      if negb (String.eqb (toUpperCase (method contract)) normalizedMethod)
      then findContract_loop normalizedMethod pathname rest
      else if matchPathPattern pathname (path contract) then Some contract
      else findContract_loop normalizedMethod pathname rest
  end.

Definition findContract (contracts : list ContractDefinition)
    (method : string) (pathname : string) : option ContractDefinition :=
  findContract_loop (toUpperCase method) pathname contracts.

(** The matching rule as the claim words it: only the empty segments that
    come from a leading or a trailing slash are ignored. *)
Definition drop_leading_empty (l : list string) : list string :=
  match l with
  | EmptyString :: t => t
  | _ => l
  end.

Definition drop_trailing_empty (l : list string) : list string :=
  match rev l with
  | EmptyString :: t => rev t
  | _ => l
  end.

Definition claim_segments (s : string) : list string :=
  drop_trailing_empty (drop_leading_empty (split_char "/" s)).

Definition claim_match (pathname pattern : string) : bool :=
  let a := claim_segments pathname in
  let b := claim_segments pattern in
  Nat.eqb (length a) (length b) &&
  forallb (fun ps => startsWith (fst ps) ":" || String.eqb (fst ps) (snd ps))
          (combine b a).

Definition mk_contract (m p : string) : ContractDefinition :=
  {| method := m; path := p; requestSchema := None; requestQuerySchema := None;
     requestHeadersSchema := None; requestCookiesSchema := None;
     responseSchema := None; allowedResponseStatusCodes := None;
     responseHeadersSchema := None; responseCookiesSchema := None;
     label := None |}.

(** The matching rule with every empty segment ignored, as a proposition. *)
Definition path_segments (s : string) : list string :=
  filter_nonempty (split_char "/" s).

Definition segment_rule (patternSegs pathSegs : list string) : Prop :=
  length patternSegs = length pathSegs /\
  forall i p s, patternSegs !! i = Some p -> pathSegs !! i = Some s ->
    startsWith p ":" = true \/ p = s.

Definition path_matches (pathname pattern : string) : Prop :=
  segment_rule (path_segments pattern) (path_segments pathname).

Definition contract_applies (m pathname : string) (c : ContractDefinition) : Prop :=
  toUpperCase (method c) = toUpperCase m /\ path_matches pathname (path c).

(* ------------------------------------------------------------------ *)
(** ** Platform services

    The WHATWG URL parser and [JSON.parse] are platform functions and the
    JSON-Schema evaluator (Ajv) is an external collaborator; the pipeline
    is verified for every implementation of them. *)

(** One Ajv error object ([ErrorObject]). *)
Record AjvError := {
  instancePath : string;
  ajv_message : option string;
  ajv_data : JsVal;              (* [e.data], [JUndefined] when absent *)
  ajv_schema : option JsVal;
  ajv_params : option JsVal
}.

(** What [ajv.compile(schema)] followed by [validate(data)] does. *)
Inductive AjvOutcome :=
| AjvThrows (msg : string)       (* compile or validate throws an Error *)
| AjvValid
| AjvInvalid (errors : list AjvError).

Class Runtime := {
  ajv_run : JsonSchema -> JsVal -> AjvOutcome;
  json_parse : string -> option JsVal;      (* [None]: SyntaxError *)
  url_pathname : string -> option string;   (* [new URL(s, base).pathname]; [None]: throws *)
  decodeURIComponent : string -> option string  (* [None]: URIError *)
}.

(* ------------------------------------------------------------------ *)
(** ** Body kinds (src/src/types/index.ts) *)

Inductive BodyKind :=
| BKempty | BKtext | BKjson | BKxml | BKyaml | BKcsv | BKhtml | BKmarkdown
| BKform | BKmultipart | BKbinary | BKstream | BKgraphql | BKunknown.

Definition BodyKind_eqb (a b : BodyKind) : bool :=
  match a, b with
  | BKempty, BKempty | BKtext, BKtext | BKjson, BKjson | BKxml, BKxml
  | BKyaml, BKyaml | BKcsv, BKcsv | BKhtml, BKhtml | BKmarkdown, BKmarkdown
  | BKform, BKform | BKmultipart, BKmultipart | BKbinary, BKbinary
  | BKstream, BKstream | BKgraphql, BKgraphql | BKunknown, BKunknown => true
  | _, _ => false
  end.

(** A [FormData] entry value: a string or a [File]. *)
Inductive FormValue :=
| FVString (s : string)
| FVFile (name type : string) (size : Z).

(** The body a request is issued with ([BodyInit | null | undefined]). *)
Inductive BodySource :=
| BSUndefined
| BSNull
| BSString (s : string)
| BSReadableStream
| BSFormData (entries : list (string * FormValue))
| BSURLSearchParams (entries : list (string * string))
| BSBlob (type : string) (size : Z)
| BSArrayBuffer (byteLength : Z)
| BSArrayBufferView (byteLength : Z).

Definition is_js_space (a : ascii) : bool :=
  match nat_of_ascii a with
  | 32 | 9 | 10 | 11 | 12 | 13 => true
  | _ => false
  end.

Fixpoint trim_start (s : string) : string :=
  match s with
  | String a s' => if is_js_space a then trim_start s' else s
  | EmptyString => EmptyString
  end.

Fixpoint string_rev (s : string) : string :=
  match s with
  | EmptyString => EmptyString
  | String a s' => string_rev s' ++ String a EmptyString
  end.

(** [s.trim()] *)
Definition trim (s : string) : string :=
  string_rev (trim_start (string_rev (trim_start s))).

Definition head_or_empty (l : list string) : string :=
  match l with [] => "" | x :: _ => x end.

Definition getContentTypeMedia (contentType : option string) : string :=
  match contentType with
  | None => ""
  | Some ct => if String.eqb ct "" then ""
               else head_or_empty (split_char ";" (toLowerCase (trim ct)))
  end.

Definition inferBodyKindFromContentType (contentType : option string) : BodyKind :=
  let media := getContentTypeMedia contentType in
  if String.eqb media "" then BKunknown
  else if String.eqb media "application/json"
          || String.eqb media "application/json; charset=utf-8" then BKjson
  else if String.eqb media "application/xml" || String.eqb media "text/xml" then BKxml
  else if String.eqb media "text/yaml" || String.eqb media "application/x-yaml"
          || String.eqb media "application/yaml" then BKyaml
  else if String.eqb media "text/csv" then BKcsv
  else if String.eqb media "text/html" then BKhtml
  else if String.eqb media "text/markdown" || String.eqb media "text/x-markdown"
  then BKmarkdown
  else if String.eqb media "application/x-www-form-urlencoded" then BKform
  else if startsWith media "multipart/" then BKmultipart
  else if String.eqb media "application/graphql"
          || String.eqb media "application/x-graphql" then BKgraphql
  else if startsWith media "text/" then BKtext
  else if startsWith media "image/" || startsWith media "audio/"
          || startsWith media "video/" || String.eqb media "application/pdf"
          || startsWith media "application/octet-stream" then BKbinary
  else BKunknown.

Definition bodySource_nullish (b : BodySource) : bool :=
  match b with BSUndefined | BSNull => true | _ => false end.

Definition inferRequestBodyKind (contentType : option string)
    (bodySource : BodySource) (parsedBody : JsVal) : BodyKind :=
  if bodySource_nullish bodySource then BKempty
  else match bodySource with
  | BSReadableStream => BKstream
  | BSFormData _ => BKmultipart
  | BSURLSearchParams _ => BKform
  | BSBlob _ _ | BSArrayBuffer _ | BSArrayBufferView _ => BKbinary
  | _ =>
    let fromContentType := inferBodyKindFromContentType contentType in
    if negb (BodyKind_eqb fromContentType BKunknown) then fromContentType
    else if is_nullish parsedBody then BKempty
    else match parsedBody with
    | JStr _ => BKtext
    | JObj o =>
        if truthy (prop o "[Blob]") || truthy (prop o "[ArrayBuffer]")
           || truthy (prop o "[ArrayBufferView]") then BKbinary else BKunknown
    | _ => BKunknown
    end
  end.

Definition inferResponseBodyKind (contentType : option string)
    (parsedBody : JsVal) : BodyKind :=
  if is_nullish parsedBody then BKempty
  else
    let fromContentType := inferBodyKindFromContentType contentType in
    if negb (BodyKind_eqb fromContentType BKunknown) then fromContentType
    else match parsedBody with
    | JStr _ => BKtext
    | JObj o =>
        if truthy (prop o "[Blob]") || truthy (prop o "[Binary]")
           || negb (match prop o "byteLength" with JUndefined => true | _ => false end)
        then BKbinary else BKunknown
    | _ => BKunknown   (* arrays read every marker as undefined *)
    end.

(** [result[k] = v]: an existing key keeps its position, a new one is appended. *)
Fixpoint set_prop (fields : list (string * JsVal)) (k : string) (v : JsVal)
    : list (string * JsVal) :=
  match fields with
  | [] => [(k, v)]
  | (k', v') :: rest =>
      if String.eqb k k' then (k', v) :: rest else (k', v') :: set_prop rest k v
  end.

Definition isJsonContentType (contentType : option string) : bool :=
  match contentType with
  | None => false
  | Some ct => negb (String.eqb ct "")
               && startsWith (toLowerCase (trim ct)) "application/json"
  end.

(** The properties every object literal [{}] inherits from
    [Object.prototype], and [__proto__], whose assignment sets the prototype.
    The records below are read and written as own properties only
    ([prop], [set_prop]); for keys outside this list that is what
    JavaScript does on an object literal. *)
Definition object_prototype_keys : list string :=
  ["constructor"; "__proto__"; "hasOwnProperty"; "isPrototypeOf";
   "propertyIsEnumerable"; "toLocaleString"; "toString"; "valueOf";
   "__defineGetter__"; "__defineSetter__"; "__lookupGetter__"; "__lookupSetter__"].

Definition not_prototype_key (k : string) : bool :=
  negb (existsb (String.eqb k) object_prototype_keys).

(** One iteration of the [FormData] loop of [parseBody] (own properties of
    [result], see [object_prototype_keys]). *)
Definition formdata_step (result : list (string * JsVal)) (entry : string * FormValue)
    : list (string * JsVal) :=
  let (key, value) := entry in
  match value with
  | FVFile name type size =>
      let arr := match prop result key with JArr xs => xs | _ => [] end in
      set_prop result key
        (JArr (arr ++ [JObj [("name", JStr name); ("type", JStr type);
                            ("size", JNum size)]])%list)
  | FVString v =>
      match prop result key with
      | JUndefined => set_prop result key (JStr v)
      | JArr xs => set_prop result key (JArr (xs ++ [JStr v])%list)
      | existing => set_prop result key (JArr [existing; JStr v])
      end
  end.

Section ParseBody.
Context `{Runtime}.

(** [parseBody(body, contentType)]: capture-only parsing of a request body. *)
Definition parseBody (body : BodySource) (contentType : option string) : JsVal :=
  match body with
  | BSUndefined | BSNull => JNull
  | BSString s =>
      if isJsonContentType contentType then
        match json_parse s with Some v => v | None => JStr s end
      else JStr s
  | BSURLSearchParams entries =>
      JObj (fold_left (fun r kv => set_prop r (fst kv) (JStr (snd kv))) entries [])
  | BSFormData entries => JObj (fold_left formdata_step entries [])
  | BSBlob type size => JObj [("[Blob]", JBool true); ("type", JStr type); ("size", JNum size)]
  | BSArrayBuffer n => JObj [("[ArrayBuffer]", JBool true); ("byteLength", JNum n)]
  | BSArrayBufferView n => JObj [("[ArrayBufferView]", JBool true); ("byteLength", JNum n)]
  | BSReadableStream => JStr "[ReadableStream]"
  end.

(** The body kind [serializeRequest] records for a request body. *)
Definition requestBodyKind (contentType : option string) (bodySource : BodySource)
    : BodyKind :=
  inferRequestBodyKind contentType bodySource (parseBody bodySource contentType).

End ParseBody.

(** The structural kinds of a raw request payload (stream, multipart form,
    URL-encoded form, binary buffer). *)
Definition structural_kind (b : BodySource) : option BodyKind :=
  match b with
  | BSReadableStream => Some BKstream
  | BSFormData _ => Some BKmultipart
  | BSURLSearchParams _ => Some BKform
  | BSBlob _ _ | BSArrayBuffer _ | BSArrayBufferView _ => Some BKbinary
  | _ => None
  end.

(** Kind from the shape of the parsed body (step (c), then (d)). *)
Definition request_shape_kind (pb : JsVal) : BodyKind :=
  match pb with
  | JUndefined | JNull => BKempty
  | JStr _ => BKtext
  | JObj o => if truthy (prop o "[Blob]") || truthy (prop o "[ArrayBuffer]")
                 || truthy (prop o "[ArrayBufferView]") then BKbinary else BKunknown
  | _ => BKunknown
  end.

Definition response_shape_kind (pb : JsVal) : BodyKind :=
  match pb with
  | JStr _ => BKtext
  | JObj o => if truthy (prop o "[Blob]") || truthy (prop o "[Binary]")
                 || negb (match prop o "byteLength" with JUndefined => true | _ => false end)
              then BKbinary else BKunknown
  | _ => BKunknown
  end.

(* ------------------------------------------------------------------ *)
(** ** Response objects and [serializeResponse] (src/src/types/index.ts) *)

(** A fetch [Response]: its header list and a one-shot body. *)
Record Response := {
  r_status : Z;
  r_statusText : string;
  r_headers : list (string * string);
  r_setCookies : list string;       (* [headers.getSetCookie()] *)
  r_body : string;
  r_bodyUsed : bool
}.

(** The response objects alive in the page, by object identity. *)
Record Heap := {
  objs : gmap nat Response;
  next_id : nat
}.

(** Operations on response objects may throw or reject: [None]. *)
Definition HeapM (A : Type) := Heap -> Heap * option A.

Definition heap_set (i : nat) (x : Response) (h : Heap) : Heap :=
  {| objs := <[i := x]> (objs h); next_id := next_id h |}.

(** [response.clone()]: a new object with a copy of the unread body;
    throws when the body was already used. *)
Definition clone_response (r : nat) : HeapM nat := fun h =>
  match objs h !! r with
  | Some resp =>
      if r_bodyUsed resp then (h, None)
      else let c := next_id h in
           ({| objs := <[c := resp]> (objs h); next_id := S c |}, Some c)
  | None => (h, None)
  end.

(** Reading the body stream: marks it used; rejects when already used. *)
Definition consume_body (r : nat) : HeapM string := fun h =>
  match objs h !! r with
  | Some resp =>
      if r_bodyUsed resp then (h, None)
      else (heap_set r {| r_status := r_status resp; r_statusText := r_statusText resp;
                          r_headers := r_headers resp; r_setCookies := r_setCookies resp;
                          r_body := r_body resp;
                          r_bodyUsed := true |} h, Some (r_body resp))
  | None => (h, None)
  end.

Section ResponseReads.
Context `{Runtime}.

Definition response_text (r : nat) : HeapM string := consume_body r.

Definition response_json (r : nat) : HeapM JsVal := fun h =>
  let (h', s) := consume_body r h in
  (h', match s with Some s => json_parse s | None => None end).

Definition response_arrayBuffer (r : nat) : HeapM Z := fun h =>
  let (h', s) := consume_body r h in
  (h', option_map (fun s => Z.of_nat (String.length s)) s).

End ResponseReads.

(** How application code reads a body. *)
Inductive BodyRead := ReadText | ReadJson | ReadArrayBuffer.

Definition body_read `{Runtime} (k : BodyRead) (r : nat) : HeapM JsVal := fun h =>
  match k with
  | ReadText => let (h', v) := response_text r h in (h', option_map JStr v)
  | ReadJson => response_json r h
  | ReadArrayBuffer => let (h', v) := response_arrayBuffer r h in (h', option_map JNum v)
  end.

Fixpoint hget (hs : list (string * string)) (k : string) : option string :=
  match hs with
  | [] => None
  | (k', v) :: rest => if String.eqb k k' then Some v else hget rest k
  end.

(** [a ?? b] on optional header values. *)
Definition coalesce (a b : option string) : option string :=
  match a with Some _ => a | None => b end.

Record CapturedResponse := {
  status : Z;
  statusText : string;
  cr_headers : list (string * string);
  cr_cookies : JsVal;
  cr_body : JsVal;
  bodyKind : BodyKind;
  contentType : option string
}.

(** What [serializeResponse] holds at its first [await]: the clone it will
    read and the header-derived fields computed synchronously. *)
Record PendingCapture := {
  pc_clone : nat;
  pc_status : Z;
  pc_statusText : string;
  pc_headers : list (string * string);
  pc_cookies : list (string * JsVal);
  pc_contentType : option string
}.

(** [s.indexOf(c)] *)
Fixpoint indexOf (c : ascii) (s : string) : option nat :=
  match s with
  | EmptyString => None
  | String a s' => if Ascii.eqb a c then Some 0 else option_map S (indexOf c s')
  end.

(** [s.slice(i, j)] and [s.slice(i)] for [0 <= i]. *)
Definition slice (s : string) (i j : nat) : string := substring i (j - i) s.
Definition slice_from (s : string) (i : nat) : string :=
  substring i (String.length s - i) s.

(** The [getSetCookie] branch of [getResponseCookiesFromHeaders]. *)
Definition getResponseCookies `{Runtime} (setCookies : list string)
    : option (list (string * JsVal)) :=
  fold_left (fun acc s =>
    match acc with
    | None => None
    | Some result =>
        match indexOf "=" s with
        | None => Some result
        | Some eq =>
            let name := trim (slice (trim s) 0 eq) in
            let val := trim (head_or_empty (split_char ";" (slice_from (trim s) (S eq)))) in
            if String.eqb name "" then Some result
            else match decodeURIComponent name, decodeURIComponent val with
                 | Some n, Some v => Some (set_prop result n (JStr v))
                 | _, _ => None
                 end
        end
    end) setCookies (Some []).

(** The synchronous prefix of [serializeResponse]: everything up to the
    first [await] (clone, then header reads of the original). *)
Definition serializeResponse_sync `{Runtime} (response : nat) : HeapM PendingCapture :=
  fun h =>
  match clone_response response h with
  | (h1, Some cloned) =>
      match objs h1 !! response with
      | Some resp =>
          let headers := r_headers resp in
          match getResponseCookies (r_setCookies resp) with
          | Some cookies =>
              (h1, Some {| pc_clone := cloned; pc_status := r_status resp;
                           pc_statusText := r_statusText resp; pc_headers := headers;
                           pc_cookies := cookies;
                           pc_contentType := coalesce (hget headers "content-type")
                                                      (hget headers "Content-Type") |})
          | None => (h1, None)
          end
      | None => (h1, None)
      end
  | (h1, None) => (h1, None)
  end.

Definition isBinaryMedia (media : string) : bool :=
  startsWith media "image/" || startsWith media "audio/" || startsWith media "video/"
  || String.eqb media "application/pdf" || String.eqb media "application/octet-stream".

(** The asynchronous remainder of [serializeResponse]: reads the clone. *)
Definition serializeResponse_async `{Runtime} (p : PendingCapture)
    : Heap -> Heap * CapturedResponse := fun h =>
  let cloned := pc_clone p in
  let contentType := pc_contentType p in
  let media := getContentTypeMedia contentType in
  let '(h', body) :=
    if isBinaryMedia media then
      match response_arrayBuffer cloned h with
      | (h', Some n) => (h', JObj [("[Binary]", JBool true); ("contentType", JStr media);
                                  ("size", JNum n)])
      | (h', None) => (h', JNull)
      end
    else if isJsonContentType contentType then
      match response_json cloned h with
      | (h', Some v) => (h', v)
      | (h', None) =>
          match response_text cloned h' with
          | (h'', Some t) => (h'', JStr t)
          | (h'', None) => (h'', JNull)
          end
      end
    else
      match response_text cloned h with
      | (h', Some t) => (h', JStr t)
      | (h', None) => (h', JNull)
      end in
  (h', {| status := pc_status p; statusText := pc_statusText p;
          cr_headers := pc_headers p; cr_cookies := JObj (pc_cookies p);
          cr_body := body; bodyKind := inferResponseBodyKind contentType body;
          contentType := contentType |}).

(** The fulfilment handler of [_wrapFetch]: starts [serializeResponse]
    (its synchronous prefix runs now, the rest is queued) and returns the
    response object it was given. *)
Definition wrapFetch_onFulfilled `{Runtime} (response : nat)
    : Heap -> Heap * nat * option PendingCapture := fun h =>
  let (h1, pending) := serializeResponse_sync response h in
  (h1, response, pending).

(** Objects at or beyond [next_id] are not allocated yet. *)
Definition heap_wf (h : Heap) : Prop :=
  forall i, (next_id h <= i)%nat -> objs h !! i = None.

(** A concrete platform, for evaluating the model on sample inputs: the
    evaluator accepts everything, [JSON.parse] recognises [null] and
    [true] only, URLs never parse, decoding is the identity. *)
Definition sample_runtime : Runtime := {|
  ajv_run := fun _ _ => AjvValid;
  json_parse := fun s => if String.eqb s "null" then Some JNull
                         else if String.eqb s "true" then Some (JBool true) else None;
  url_pathname := fun _ => None;
  decodeURIComponent := fun s => Some s
|}.

Definition sample_response : Response := {|
  r_status := 200; r_statusText := "OK";
  r_headers := [("content-type", "application/json")];
  r_setCookies := ["sid=abc; Path=/"];
  r_body := "true"; r_bodyUsed := false
|}.

Definition sample_heap : Heap := {| objs := <[0 := sample_response]> empty; next_id := 1 |}.

(* ------------------------------------------------------------------ *)
(** ** Schema validation (src/src/validation/schema-validator.ts) *)

Record ValidationErrorItem := {
  item_path : option string;
  item_message : string;
  item_received : JsVal;                  (* [JUndefined] when absent *)
  item_expectedSchema : option JsVal;
  item_params : option JsVal
}.

Record SchemaValidationResult := {
  valid : bool;
  errors : option (list ValidationErrorItem)
}.

Definition all_digits (s : string) : bool :=
  negb (String.eqb s "") &&
  forallb (fun a => (48 <=? nat_of_ascii a)%nat && (nat_of_ascii a <=? 57)%nat)
          (list_ascii_of_string s).

Fixpoint digits_value (s : string) (acc : nat) : nat :=
  match s with
  | EmptyString => acc
  | String a s' => digits_value s' (acc * 10 + (nat_of_ascii a - 48))%nat
  end.

Fixpoint nat_to_dec_aux (fuel n : nat) (acc : string) : string :=
  match fuel with
  | O => acc
  | S fuel' =>
      let acc' := String (ascii_of_nat (48 + n mod 10)) acc in
      if (n <? 10)%nat then acc' else nat_to_dec_aux fuel' (n / 10) acc'
  end.

(** [String(n)] for an integer. *)
Definition Z_to_dec (z : Z) : string :=
  let n := Z.to_nat (Z.abs z) in
  (if (z <? 0)%Z then "-" else "") ++ nat_to_dec_aux (S n) n "".

(** [getValueAtPath(root, instancePath)]; own-property reads and an exact
    [Number(seg)], as described at [getValueAtPath_step]. *)
Definition getValueAtPath (root : JsVal) (instancePath : string) : JsVal :=
  if String.eqb instancePath "" || String.eqb instancePath "/" then root
  else fold_left (fun current seg =>
         match current with
         | JObj o =>   (* obj[Number(seg)] reads the key String(Number(seg)) *)
             if all_digits seg then prop o (Z_to_dec (Z.of_nat (digits_value seg 0)))
             else prop o seg
         | JArr xs =>
             if all_digits seg then
               match nth_error xs (digits_value seg 0) with
               | Some v => v | None => JUndefined end
             else if String.eqb seg "length" then JNum (Z.of_nat (List.length xs))
             else JUndefined
         | _ => JUndefined
         end) (filter_nonempty (split_char "/" instancePath)) root.

Definition ajv_error_item (data : JsVal) (e : AjvError) : ValidationErrorItem :=
  {| item_path := if String.eqb (instancePath e) "" then None else Some (instancePath e);
     item_message := match ajv_message e with Some m => m | None => "[object Object]" end;
     item_received := match ajv_data e with
                      | JUndefined => getValueAtPath data (instancePath e)
                      | d => d
                      end;
     item_expectedSchema := ajv_schema e;
     item_params := ajv_params e |}.

(** The single item the [catch] block of [validateWithSchema] builds. *)
Definition generic_error_item (msg : string) : ValidationErrorItem :=
  {| item_path := None; item_message := msg; item_received := JUndefined;
     item_expectedSchema := None; item_params := None |}.

Definition validateWithSchema `{Runtime} (data : JsVal) (schema : JsonSchema)
    : SchemaValidationResult :=
  match ajv_run schema data with
  | AjvValid => {| valid := true; errors := None |}
  | AjvInvalid errs => {| valid := false; errors := Some (map (ajv_error_item data) errs) |}
  | AjvThrows msg => {| valid := false; errors := Some [generic_error_item msg] |}
  end.

Fixpoint join (sep : string) (l : list string) : string :=
  match l with
  | [] => ""
  | [x] => x
  | x :: rest => x ++ sep ++ join sep rest
  end.

Definition validateStatusCode (status : Z) (allowed : list Z) : SchemaValidationResult :=
  if Nat.eqb (List.length allowed) 0 || existsb (Z.eqb status) allowed
  then {| valid := true; errors := None |}
  else {| valid := false;
          errors := Some [{| item_path := None;
                             item_message := "status must be one of [" ++
                               join ", " (map Z_to_dec allowed) ++ "], received " ++
                               Z_to_dec status;
                             item_received := JNum status;
                             item_expectedSchema := None;
                             item_params := Some (JObj [("allowed", JArr (map JNum allowed))]) |}] |}.

(* ------------------------------------------------------------------ *)
(** ** Validation results and reporting (src/src/validation/{types,reporting}.ts) *)

Record CapturedRequest := {
  req_method : string;
  url : string;
  queryParams : JsVal;         (* [urlParts.queryParams] *)
  req_headers : JsVal;
  req_cookies : JsVal;
  req_body : JsVal
}.

Inductive ContractValidationKind :=
| RequestBody | RequestQuery | RequestHeaders | RequestCookies
| ResponseBody | ResponseStatus | ResponseHeaders | ResponseCookies.

Definition kind_name (k : ContractValidationKind) : string :=
  match k with
  | RequestBody => "request-body" | RequestQuery => "request-query"
  | RequestHeaders => "request-headers" | RequestCookies => "request-cookies"
  | ResponseBody => "response-body" | ResponseStatus => "response-status"
  | ResponseHeaders => "response-headers" | ResponseCookies => "response-cookies"
  end.

Record ContractValidationResult := {
  res_valid : bool;
  res_contract : ContractDefinition;
  res_request : CapturedRequest;
  res_response : CapturedResponse;
  res_errors : option (list ValidationErrorItem);
  res_kind : ContractValidationKind
}.

(** [String(v)] *)
Fixpoint js_to_string (v : JsVal) : string :=
  match v with
  | JUndefined => "undefined"
  | JNull => "null"
  | JBool b => if b then "true" else "false"
  | JNum z => Z_to_dec z
  | JStr s => s
  | JArr xs => join "," (map (fun x => match x with
                                       | JUndefined | JNull => ""
                                       | _ => js_to_string x end) xs)
  | JObj _ => "[object Object]"
  end.

Definition formatReceivedType (v : JsVal) : string :=
  match v with
  | JUndefined => "undefined"
  | JNull => "null"
  | JArr _ => "array"
  | JBool _ => "boolean"
  | JNum _ => "number"
  | JStr _ => "string"
  | JObj _ => "object"
  end.

Definition formatExpected (e : ValidationErrorItem) : string :=
  let schema := match item_expectedSchema e with
                | Some v => if is_nullish v then item_params e else Some v
                | None => item_params e
                end in
  match schema with
  | Some (JObj o) => let ty := prop o "type" in
                     if is_nullish ty then "per schema" else js_to_string ty
  | Some (JArr _) => "per schema"   (* arrays have no [type] property *)
  | _ => "per schema"
  end.

(** [s.replace(/\//g, ".")] *)
Definition slashes_to_dots (s : string) : string :=
  map_chars (fun a => if Ascii.eqb a "/" then "."%char else a) s.

(** [s.replace(/^\//, "")] *)
Definition drop_leading_slash (s : string) : string :=
  match s with String a s' => if Ascii.eqb a "/" then s' else s | _ => s end.

Definition formatErrorLine (e : ValidationErrorItem) : string :=
  let loc := match item_path e with
             | Some p => if String.eqb p "" then "body"
                         else if startsWith p "/" then slice_from p 1 else p
             | None => "body"
             end in
  let field0 := slashes_to_dots (drop_leading_slash loc) in
  let field := if String.eqb field0 "" then "body" else field0 in
  match item_received e with
  | JUndefined => field ++ ": " ++ item_message e
  | r => field ++ ": expected " ++ formatExpected e ++ ", received " ++ formatReceivedType r
  end.

Definition kindLabel (k : ContractValidationKind) : string :=
  map_chars (fun a => if Ascii.eqb a "-" then " "%char else a) (kind_name k).

Definition formatViolationSummary (result : ContractValidationResult) : string :=
  let c := res_contract result in
  let p := match label c with Some l => l | None => path c end in
  req_method (res_request result) ++ " " ++ p ++ " " ++ kindLabel (res_kind result).

Definition formatViolationMessage (result : ContractValidationResult) : string :=
  let prefix := formatViolationSummary result in
  let errs := match res_errors result with Some es => es | None => [] end in
  match errs with
  | [] => prefix ++ ": validation failed"
  | _ => prefix ++ ": " ++ join "; " (map formatErrorLine errs)
  end.

(** The [console.warn] lines [logViolation] writes. *)
Definition logViolation_lines (result : ContractValidationResult) : list string :=
  ("[contract-validator] " ++ formatViolationMessage result) ::
  match res_errors result with
  | Some es => if (1 <? List.length es)%nat
               then map (fun e => "  - " ++ formatErrorLine e) es else []
  | None => []
  end.

(* ------------------------------------------------------------------ *)
(** ** The contract validator (src/src/validation/contract-validator.ts) *)

(** How a call of the user's [onViolation] callback ends. *)
Inductive CallbackOutcome := Returns | Throws.

Definition OnViolation := option (ContractValidationResult -> CallbackOutcome).

(** What the validator makes observable: callback invocations and the
    [console.warn] output of one [logViolation] call. *)
Inductive Event :=
| EvCallback (result : ContractValidationResult)
| EvLog (result : ContractValidationResult) (lines : list string).

(** Statements that append to the event trace and may throw ([None]). *)
Definition Emit (A : Type) := list Event -> list Event * option A.

Definition eret {A} (a : A) : Emit A := fun tr => (tr, Some a).

Definition ebind {A B} (m : Emit A) (k : A -> Emit B) : Emit B := fun tr =>
  match m tr with
  | (tr', Some a) => k a tr'
  | (tr', None) => (tr', None)
  end.

Notation "m ;;; k" := (ebind m (fun _ => k)) (at level 100, right associativity).

Definition logViolation (result : ContractValidationResult) : Emit unit := fun tr =>
  ((tr ++ [EvLog result (logViolation_lines result)])%list, Some tt).

Definition call_onViolation (onViolation : OnViolation)
    (result : ContractValidationResult) : Emit unit := fun tr =>
  match onViolation with
  | None => (tr, Some tt)
  | Some f => ((tr ++ [EvCallback result])%list,
               match f result with Returns => Some tt | Throws => None end)
  end.

Definition mk_result (contract : ContractDefinition) (request : CapturedRequest)
    (response : CapturedResponse) (kind : ContractValidationKind)
    (errs : option (list ValidationErrorItem)) : ContractValidationResult :=
  {| res_valid := false; res_contract := contract; res_request := request;
     res_response := response; res_errors := errs; res_kind := kind |}.

(** [emitViolation]: [if (onViolation) onViolation(result); logViolation(result);] *)
Definition emitViolation (contract : ContractDefinition) (request : CapturedRequest)
    (response : CapturedResponse) (kind : ContractValidationKind)
    (errs : option (list ValidationErrorItem)) (onViolation : OnViolation) : Emit unit :=
  let result := mk_result contract request response kind errs in
  call_onViolation onViolation result ;;; logViolation result.

Definition headers_obj (hs : list (string * string)) : JsVal :=
  JObj (map (fun kv => (fst kv, JStr (snd kv))) hs).

Section Validator.
Context `{Runtime}.

(** The value each aspect validates and the schema the contract declares
    for it, in the order of the handler's [if] blocks. *)
Definition aspect_input (contract : ContractDefinition) (request : CapturedRequest)
    (response : CapturedResponse) (k : ContractValidationKind)
    : option SchemaValidationResult :=
  match k with
  | RequestBody => option_map (validateWithSchema (req_body request)) (requestSchema contract)
  | RequestQuery => option_map (validateWithSchema (or_empty_obj (queryParams request)))
                               (requestQuerySchema contract)
  | RequestHeaders => option_map (validateWithSchema (or_empty_obj (req_headers request)))
                                 (requestHeadersSchema contract)
  | RequestCookies => option_map (validateWithSchema (or_empty_obj (req_cookies request)))
                                 (requestCookiesSchema contract)
  | ResponseBody => option_map (validateWithSchema (cr_body response)) (responseSchema contract)
  | ResponseStatus =>
      match allowedResponseStatusCodes contract with
      | Some allowed => if (0 <? List.length allowed)%nat
                        then Some (validateStatusCode (status response) allowed) else None
      | None => None
      end
  | ResponseHeaders => option_map (validateWithSchema (or_empty_obj (headers_obj (cr_headers response))))
                                  (responseHeadersSchema contract)
  | ResponseCookies => option_map (validateWithSchema (or_empty_obj (cr_cookies response)))
                                  (responseCookiesSchema contract)
  end.

(** One [if (contract.X) { const r = ...; if (!r.valid) emitViolation(...) }] block. *)
Definition aspect_step (contract : ContractDefinition) (request : CapturedRequest)
    (response : CapturedResponse) (onViolation : OnViolation)
    (k : ContractValidationKind) : Emit unit :=
  match aspect_input contract request response k with
  | Some r => if valid r then eret tt
              else emitViolation contract request response k (errors r) onViolation
  | None => eret tt
  end.

Definition pathnameFromUrl (u : string) : string :=
  let trimmed := trim u in
  if String.eqb trimmed "" then "/"
  else
    let before_query := match indexOf "?" trimmed with
                        | None => trimmed
                        | Some q => slice trimmed 0 q
                        end in
    if startsWith trimmed "/" then before_query
    else match url_pathname trimmed with
         | Some p => if String.eqb p "" then "/" else p
         | None => before_query
         end.

Record InterceptorResponsePayload := {
  pl_response : CapturedResponse;
  pl_request : option CapturedRequest
}.

(** The [handler] closure of [createContractValidator(config, options)]. *)
Definition handler (contracts : list ContractDefinition) (onViolation : OnViolation)
    (payload : InterceptorResponsePayload) : Emit unit :=
  match pl_request payload with
  | None => eret tt
  | Some request =>
      let pathname := pathnameFromUrl (url request) in
      match findContract contracts (req_method request) pathname with
      | None => eret tt
      | Some contract =>
          let step := aspect_step contract request (pl_response payload) onViolation in
          step RequestBody ;;; step RequestQuery ;;; step RequestHeaders ;;;
          step RequestCookies ;;; step ResponseBody ;;; step ResponseStatus ;;;
          step ResponseHeaders ;;; step ResponseCookies
      end
  end.

End Validator.

(** The eight aspects, in the order the handler checks them. *)
Definition all_kinds : list ContractValidationKind :=
  [RequestBody; RequestQuery; RequestHeaders; RequestCookies;
   ResponseBody; ResponseStatus; ResponseHeaders; ResponseCookies].

(** A callback that never throws (or no callback). *)
Definition callback_returns (onViolation : OnViolation) : Prop :=
  forall f, onViolation = Some f -> forall r, f r = Returns.

(** The events one violation result gives: callback first, then the log. *)
Definition delivery (onViolation : OnViolation) (result : ContractValidationResult)
    : list Event :=
  ((match onViolation with Some _ => [EvCallback result] | None => [] end)
     ++ [EvLog result (logViolation_lines result)])%list.

(** Delivering violation results one after the other, as successive
    [emitViolation] calls do: callback, then log, for each. *)
Fixpoint deliver_results (onViolation : OnViolation) (results : list ContractValidationResult)
    : Emit unit :=
  match results with
  | [] => eret tt
  | r :: rs => (call_onViolation onViolation r ;;; logViolation r) ;;;
               deliver_results onViolation rs
  end.

(** [step k1; step k2; ...; step kn] as the handler sequences its blocks. *)
Fixpoint aspect_chain (step : ContractValidationKind -> Emit unit)
    (k : ContractValidationKind) (ks : list ContractValidationKind) : Emit unit :=
  match ks with
  | [] => step k
  | k' :: ks' => step k ;;; aspect_chain step k' ks'
  end.

(** The violation result an aspect check gives, if it fails. *)
Definition aspect_failure `{Runtime} (contract : ContractDefinition)
    (request : CapturedRequest) (response : CapturedResponse)
    (k : ContractValidationKind) : list ContractValidationResult :=
  match aspect_input contract request response k with
  | Some r => if valid r then [] else [mk_result contract request response k (errors r)]
  | None => []
  end.

Definition failing_results `{Runtime} (contract : ContractDefinition)
    (request : CapturedRequest) (response : CapturedResponse)
    : list ContractValidationResult :=
  flat_map (aspect_failure contract request response) all_kinds.

(** Results handed to the callback and results logged, in trace order. *)
Definition callback_results (tr : list Event) : list ContractValidationResult :=
  flat_map (fun e => match e with EvCallback r => [r] | EvLog _ _ => [] end) tr.

Definition logged_results (tr : list Event) : list ContractValidationResult :=
  flat_map (fun e => match e with EvLog r _ => [r] | EvCallback _ => [] end) tr.

#[global] Instance ContractValidationKind_eq_dec : EqDecision ContractValidationKind.
Proof. solve_decision. Defined.

(** Whether aspect [k] is declared and its check fails. *)
Definition aspect_fails `{Runtime} (contract : ContractDefinition)
    (request : CapturedRequest) (response : CapturedResponse)
    (k : ContractValidationKind) : bool :=
  match aspect_input contract request response k with
  | Some r => negb (valid r)
  | None => false
  end.

(** A platform whose evaluator rejects every value with one type error. *)
Definition rejecting_runtime : Runtime := {|
  ajv_run := fun _ _ => AjvInvalid [{| instancePath := "/id"; ajv_message := Some "must be integer";
                                       ajv_data := JStr "7";
                                       ajv_schema := Some (JObj [("type", JStr "integer")]);
                                       ajv_params := None |}];
  json_parse := fun _ => None;
  url_pathname := fun _ => None;
  decodeURIComponent := fun s => Some s
|}.

(** A platform whose evaluator throws on every schema. *)
Definition throwing_runtime : Runtime := {|
  ajv_run := fun _ _ => AjvThrows "schema is invalid";
  json_parse := fun _ => None;
  url_pathname := fun _ => None;
  decodeURIComponent := fun s => Some s
|}.

Definition sample_request : CapturedRequest := {|
  req_method := "GET"; url := "/api/users?page=2"; queryParams := JObj [("page", JStr "2")];
  req_headers := JObj [("accept", JStr "application/json")]; req_cookies := JObj [];
  req_body := JNull |}.

Definition sample_captured (st : Z) : CapturedResponse := {|
  status := st; statusText := ""; cr_headers := [("content-type", "application/json")];
  cr_cookies := JObj []; cr_body := JObj [("id", JStr "7"); ("name", JStr "Ann")];
  bodyKind := BKjson; contentType := Some "application/json" |}.

(** [GET /api/users] declaring a request body schema and a request header schema. *)
Definition body_and_headers_contract : ContractDefinition := {|
  method := "get"; path := "/api/users";
  requestSchema := Some [("type", JStr "object")]; requestQuerySchema := None;
  requestHeadersSchema := Some [("type", JStr "object")]; requestCookiesSchema := None;
  responseSchema := None; allowedResponseStatusCodes := None;
  responseHeadersSchema := None; responseCookiesSchema := None; label := None |}.

(** [GET /api/users] with [responseStatusCodes: [200, 201]] and nothing else. *)
Definition status_contract : ContractDefinition := {|
  method := "GET"; path := "/api/users";
  requestSchema := None; requestQuerySchema := None;
  requestHeadersSchema := None; requestCookiesSchema := None;
  responseSchema := None; allowedResponseStatusCodes := Some [200; 201]%Z;
  responseHeadersSchema := None; responseCookiesSchema := None; label := None |}.

Definition throwing_callback : OnViolation := Some (fun _ => Throws).

(* ------------------------------------------------------------------ *)
(** ** Interceptor, validator attachment and the registration slot
       (src/unnamed/part_001 register/unregister, src/unnamed/part_002
       FetchInterceptor, contract-validator.ts attach/detach) *)

(** What [globalThis.fetch] holds: the platform's fetch, or the bound
    [_wrapFetch] of interceptor object [i]. *)
Inductive FetchFn :=
| NativeFetch
| WrappedFetch (i : nat).

#[global] Instance FetchFn_eq_dec : EqDecision FetchFn.
Proof. solve_decision. Defined.

(** A [FetchInterceptor] object; its response listeners are the handler
    closures of validators, named by the validator's id. *)
Record Interceptor := {
  installed : bool;
  originalFetch : option FetchFn;
  listeners : list nat
}.

(** The closure state of one [createContractValidator] call. *)
Record Validator := {
  v_contracts : list ContractDefinition;
  v_onViolation : OnViolation;
  interceptorRef : option nat;
  handlerRef : option nat
}.

(** The page: the global fetch, the objects created so far, and the
    module-level [currentCleanup] slot, which holds the cleanup closure of
    registration [k] as [Some k]. *)
Record World := {
  globalFetch : FetchFn;
  interceptors : gmap nat Interceptor;
  validators : gmap nat Validator;
  currentCleanup : option nat;
  fresh : nat
}.

Definition set_interceptors (w : World) (m : gmap nat Interceptor) : World :=
  {| globalFetch := globalFetch w; interceptors := m; validators := validators w;
     currentCleanup := currentCleanup w; fresh := fresh w |}.
Definition set_validators (w : World) (m : gmap nat Validator) : World :=
  {| globalFetch := globalFetch w; interceptors := interceptors w; validators := m;
     currentCleanup := currentCleanup w; fresh := fresh w |}.
Definition set_globalFetch (w : World) (f : FetchFn) : World :=
  {| globalFetch := f; interceptors := interceptors w; validators := validators w;
     currentCleanup := currentCleanup w; fresh := fresh w |}.
Definition set_currentCleanup (w : World) (c : option nat) : World :=
  {| globalFetch := globalFetch w; interceptors := interceptors w; validators := validators w;
     currentCleanup := c; fresh := fresh w |}.

(** [install()] *)
Definition install (i : nat) (w : World) : World :=
  match interceptors w !! i with
  | Some it =>
      if installed it then w
      else set_globalFetch
             (set_interceptors w (<[i := {| installed := true;
                                            originalFetch := Some (globalFetch w);
                                            listeners := listeners it |}]> (interceptors w)))
             (WrappedFetch i)
  | None => w
  end.

(** [uninstall()] *)
Definition uninstall (i : nat) (w : World) : World :=
  match interceptors w !! i with
  | Some it =>
      match installed it, originalFetch it with
      | true, Some orig =>
          set_globalFetch
            (set_interceptors w (<[i := {| installed := false; originalFetch := None;
                                           listeners := listeners it |}]> (interceptors w)))
            orig
      | _, _ => w
      end
  | None => w
  end.

Definition update_listeners (i : nat) (f : list nat -> list nat) (w : World) : World :=
  match interceptors w !! i with
  | Some it => set_interceptors w (<[i := {| installed := installed it;
                                             originalFetch := originalFetch it;
                                             listeners := f (listeners it) |}]> (interceptors w))
  | None => w
  end.

(** [on(INTERCEPTOR_RESPONSE, cb)] and [off(...)]: a [Set] of callbacks. *)
Definition interceptor_on (i h : nat) (w : World) : World :=
  update_listeners i (fun ls => if decide (h ∈ ls) then ls else (ls ++ [h])%list) w.
Definition interceptor_off (i h : nat) (w : World) : World :=
  update_listeners i (List.filter (fun x => negb (Nat.eqb x h))) w.

Definition set_validator_refs (v : nat) (val : Validator) (ir hr : option nat)
    (w : World) : World :=
  set_validators w (<[v := {| v_contracts := v_contracts val; v_onViolation := v_onViolation val;
                              interceptorRef := ir; handlerRef := hr |}]> (validators w)).

(** [validator.attach(interceptor)] *)
Definition attach (v i : nat) (w : World) : World :=
  match validators w !! v with
  | Some val =>
      match interceptorRef val with
      | Some _ => w
      | None => interceptor_on i v (set_validator_refs v val (Some i) (Some v) w)
      end
  | None => w
  end.

(** [validator.detach()] *)
Definition detach (v : nat) (w : World) : World :=
  match validators w !! v with
  | Some val =>
      match interceptorRef val, handlerRef val with
      | Some i, Some h => set_validator_refs v val None None (interceptor_off i h w)
      | _, _ => w
      end
  | None => w
  end.

(** The [cleanup] closure of registration [k]. *)
Definition cleanup (k : nat) (w : World) : World :=
  match currentCleanup w with
  | None => w
  | Some _ => set_currentCleanup (uninstall k (detach k w)) None
  end.

(** The [config] argument of [register], as far as [isValidConfig] looks. *)
Inductive ConfigInput :=
| CfgNullish                                      (* null / undefined *)
| CfgNotObject                                    (* number, string, function, ... *)
| CfgObject (contracts : option (list ContractDefinition))  (* [None]: not an array *)
.

Inductive RegisterResult :=
| ThrewTypeError (msg : string)
| Registered (handle : nat).

Definition register (config : ConfigInput) (onViolation : OnViolation) (w : World)
    : World * RegisterResult :=
  match config with
  | CfgObject (Some contracts) =>
      match contracts with
      | [] => (w, ThrewTypeError
                    "[api-contract-tester] register(config): config.contracts must not be empty.")
      | _ =>
          let w1 := match currentCleanup w with
                    | Some k => set_currentCleanup (cleanup k w) None
                    | None => w
                    end in
          let n := fresh w1 in
          let w2 := {| globalFetch := globalFetch w1;
                       interceptors := <[n := {| installed := false; originalFetch := None;
                                                 listeners := [] |}]> (interceptors w1);
                       validators := <[n := {| v_contracts := contracts;
                                               v_onViolation := onViolation;
                                               interceptorRef := None; handlerRef := None |}]>
                                       (validators w1);
                       currentCleanup := currentCleanup w1; fresh := S n |} in
          let w3 := attach n n (install n w2) in
          (set_currentCleanup w3 (Some n), Registered n)
      end
  | _ => (w, ThrewTypeError
               "[api-contract-tester] register(config): config must be an object with a 'contracts' array (e.g. from defineContractConfig).")
  end.

(** Calling [unregister()] on the handle returned by registration [k]. *)
Definition handle_unregister (k : nat) (w : World) : World := cleanup k w.

(** The module-level [unregister()]. *)
Definition unregister (w : World) : World :=
  match currentCleanup w with
  | Some k => set_currentCleanup (cleanup k w) None
  | None => w
  end.

Definition initial_world : World := {|
  globalFetch := NativeFetch; interceptors := empty; validators := empty;
  currentCleanup := None; fresh := 0 |}.

Definition sample_config : ConfigInput := CfgObject (Some [status_contract]).

Definition after_register (cfg : ConfigInput) (w : World) : World := fst (register cfg None w).

Definition empty_text_response : Response := {|
  r_status := 200; r_statusText := "OK"; r_headers := [("content-type", "text/plain")];
  r_setCookies := []; r_body := ""; r_bodyUsed := false |}.

Definition empty_text_heap : Heap :=
  {| objs := <[0 := empty_text_response]> empty; next_id := 1 |}.

(** The body kind [serializeResponse] records for the response object [r]
    ([None] when the capture rejects). *)
Definition captured_body_kind `{Runtime} (r : nat) (h : Heap) : option BodyKind :=
  match serializeResponse_sync r h with
  | (h1, Some p) => Some (bodyKind (snd (serializeResponse_async p h1)))
  | (_, None) => None
  end.

(* ------------------------------------------------------------------ *)
(** ** Lifecycle of the pipeline (src/unnamed/part_001, part_002, contract-validator.ts) *)

Definition pipeline_inv (w : World) : Prop :=
  (forall i, (fresh w <= i)%nat -> interceptors w !! i = None /\ validators w !! i = None) /\
  match currentCleanup w with
  | None =>
      globalFetch w = NativeFetch /\
      (forall i it, interceptors w !! i = Some it -> installed it = false) /\
      (forall v val, validators w !! v = Some val -> interceptorRef val = None)
  | Some k =>
      globalFetch w = WrappedFetch k /\
      interceptors w !! k = Some {| installed := true; originalFetch := Some NativeFetch;
                                    listeners := [k] |} /\
      (forall i it, i <> k -> interceptors w !! i = Some it -> installed it = false) /\
      (exists val, validators w !! k = Some val /\
                   interceptorRef val = Some k /\ handlerRef val = Some k) /\
      (forall v val, v <> k -> validators w !! v = Some val -> interceptorRef val = None)
  end.

(** How application code drives the registration API: [register(...)], the
    module-level [unregister()], and [unregister()] on the handle of the
    registration that is current (no handle of an earlier registration is
    used). *)
Inductive LifecycleCall :=
| CallRegister (cfg : ConfigInput) (cb : OnViolation)
| CallUnregister
| CallCurrentHandle.

Definition apply_call (c : LifecycleCall) (w : World) : World :=
  match c with
  | CallRegister cfg cb => fst (register cfg cb w)
  | CallUnregister => unregister w
  | CallCurrentHandle =>
      match currentCleanup w with Some k => handle_unregister k w | None => w end
  end.

Definition run_calls (calls : list LifecycleCall) (w : World) : World :=
  fold_left (fun w c => apply_call c w) calls w.

(* ------------------------------------------------------------------ *)
(** ** The contract builder (src/src/config/builder.ts) *)

(** [Partial<ContractDefinition>] *)
Record PartialContract := {
  p_method : option string;
  p_path : option string;
  p_requestSchema : option JsonSchema;
  p_requestQuerySchema : option JsonSchema;
  p_requestHeadersSchema : option JsonSchema;
  p_requestCookiesSchema : option JsonSchema;
  p_responseSchema : option JsonSchema;
  p_allowedResponseStatusCodes : option (list Z);
  p_responseHeadersSchema : option JsonSchema;
  p_responseCookiesSchema : option JsonSchema;
  p_label : option string
}.

Definition empty_partial : PartialContract :=
  {| p_method := None; p_path := None; p_requestSchema := None; p_requestQuerySchema := None;
     p_requestHeadersSchema := None; p_requestCookiesSchema := None; p_responseSchema := None;
     p_allowedResponseStatusCodes := None; p_responseHeadersSchema := None;
     p_responseCookiesSchema := None; p_label := None |}.

Definition pushContract (contracts : list ContractDefinition) (current : PartialContract)
    : list ContractDefinition :=
  match p_method current, p_path current with
  | Some m, Some p =>
      (contracts ++ [{| method := m; path := p;
                        requestSchema := p_requestSchema current;
                        requestQuerySchema := p_requestQuerySchema current;
                        requestHeadersSchema := p_requestHeadersSchema current;
                        requestCookiesSchema := p_requestCookiesSchema current;
                        responseSchema := p_responseSchema current;
                        allowedResponseStatusCodes := p_allowedResponseStatusCodes current;
                        responseHeadersSchema := p_responseHeadersSchema current;
                        responseCookiesSchema := p_responseCookiesSchema current;
                        label := p_label current |}])%list
  | _, _ => contracts
  end.

(** The route methods of [ContractChain]. *)
Inductive HttpVerb := VGet | VPost | VPut | VPatch | VDelete.

Definition verb_name (v : HttpVerb) : string :=
  match v with
  | VGet => "GET" | VPost => "POST" | VPut => "PUT" | VPatch => "PATCH" | VDelete => "DELETE"
  end.

(** One call on the [ContractChain] object the callback of
    [defineContractConfig] receives. *)
Inductive BuilderCall :=
| BPort (portNumber : Z)
| BBody (schema : JsonSchema)
| BRequest (schema : JsonSchema)
| BQuery (schema : JsonSchema)
| BRequestHeaders (schema : JsonSchema)
| BRequestCookies (schema : JsonSchema)
| BResponse (schema : JsonSchema)
| BResponseStatusCodes (codes : list Z)
| BResponseHeaders (schema : JsonSchema)
| BResponseCookies (schema : JsonSchema)
| BLabel (name : string)
| BRoute (verb : HttpVerb) (path : string).   (* get / post / put / patch / delete *)

Record BuilderState := {
  st_contracts : list ContractDefinition;
  st_current : PartialContract;
  st_port : option Z
}.

Definition set_current (st : BuilderState) (c : PartialContract) : BuilderState :=
  {| st_contracts := st_contracts st; st_current := c; st_port := st_port st |}.

(** [state.current.F = x] for one optional field. *)
Definition set_field (call : BuilderCall) (c : PartialContract) : PartialContract :=
  let '(Build_PartialContract m p rq qs rh rc rs sc hs cs l) := c in
  match call with
  | BBody s | BRequest s => Build_PartialContract m p (Some s) qs rh rc rs sc hs cs l
  | BQuery s => Build_PartialContract m p rq (Some s) rh rc rs sc hs cs l
  | BRequestHeaders s => Build_PartialContract m p rq qs (Some s) rc rs sc hs cs l
  | BRequestCookies s => Build_PartialContract m p rq qs rh (Some s) rs sc hs cs l
  | BResponse s => Build_PartialContract m p rq qs rh rc (Some s) sc hs cs l
  | BResponseStatusCodes codes => Build_PartialContract m p rq qs rh rc rs (Some codes) hs cs l
  | BResponseHeaders s => Build_PartialContract m p rq qs rh rc rs sc (Some s) cs l
  | BResponseCookies s => Build_PartialContract m p rq qs rh rc rs sc hs (Some s) l
  | BLabel name => Build_PartialContract m p rq qs rh rc rs sc hs cs (Some name)
  | BPort _ | BRoute _ _ => c
  end.

(** [start(method, path)] *)
Definition start (m p : string) (st : BuilderState) : BuilderState :=
  {| st_contracts := pushContract (st_contracts st) (st_current st);
     st_current := {| p_method := Some (toUpperCase m); p_path := Some p;
                      p_requestSchema := None; p_requestQuerySchema := None;
                      p_requestHeadersSchema := None; p_requestCookiesSchema := None;
                      p_responseSchema := None; p_allowedResponseStatusCodes := None;
                      p_responseHeadersSchema := None; p_responseCookiesSchema := None;
                      p_label := None |};
     st_port := st_port st |}.

Definition builder_step (st : BuilderState) (call : BuilderCall) : BuilderState :=
  match call with
  | BPort n => {| st_contracts := st_contracts st; st_current := st_current st;
                  st_port := Some n |}
  | BRoute v p => start (verb_name v) p st
  | _ => set_current st (set_field call (st_current st))
  end.

Record ContractValidatorConfig := {
  cfg_port : option Z;
  cfg_contracts : list ContractDefinition
}.

(** [defineContractConfig(fn)], [fn] making the builder calls [calls]. *)
Definition defineContractConfig (calls : list BuilderCall) : ContractValidatorConfig :=
  let st := fold_left builder_step calls
              {| st_contracts := []; st_current := empty_partial; st_port := None |} in
  {| cfg_port := st_port st; cfg_contracts := pushContract (st_contracts st) (st_current st) |}.

Definition is_route (call : BuilderCall) : bool :=
  match call with BRoute _ _ => true | _ => false end.

(** What a setter call does to a complete contract. *)
Definition apply_setter (c : ContractDefinition) (call : BuilderCall) : ContractDefinition :=
  let p := set_field call
             {| p_method := Some (method c); p_path := Some (path c);
                p_requestSchema := requestSchema c; p_requestQuerySchema := requestQuerySchema c;
                p_requestHeadersSchema := requestHeadersSchema c;
                p_requestCookiesSchema := requestCookiesSchema c;
                p_responseSchema := responseSchema c;
                p_allowedResponseStatusCodes := allowedResponseStatusCodes c;
                p_responseHeadersSchema := responseHeadersSchema c;
                p_responseCookiesSchema := responseCookiesSchema c; p_label := label c |} in
  {| method := method c; path := path c;
     requestSchema := p_requestSchema p; requestQuerySchema := p_requestQuerySchema p;
     requestHeadersSchema := p_requestHeadersSchema p;
     requestCookiesSchema := p_requestCookiesSchema p;
     responseSchema := p_responseSchema p;
     allowedResponseStatusCodes := p_allowedResponseStatusCodes p;
     responseHeadersSchema := p_responseHeadersSchema p;
     responseCookiesSchema := p_responseCookiesSchema p; label := p_label p |}.

Definition to_partial (c : ContractDefinition) : PartialContract :=
  {| p_method := Some (method c); p_path := Some (path c);
     p_requestSchema := requestSchema c; p_requestQuerySchema := requestQuerySchema c;
     p_requestHeadersSchema := requestHeadersSchema c;
     p_requestCookiesSchema := requestCookiesSchema c;
     p_responseSchema := responseSchema c;
     p_allowedResponseStatusCodes := allowedResponseStatusCodes c;
     p_responseHeadersSchema := responseHeadersSchema c;
     p_responseCookiesSchema := responseCookiesSchema c; p_label := label c |}.

Definition builder_init : BuilderState :=
  {| st_contracts := []; st_current := empty_partial; st_port := None |}.

(** States that agree on the pushed contracts and either on the current
    contract or on having no current route. *)
Definition builder_sim (a b : BuilderState) : Prop :=
  st_contracts a = st_contracts b /\
  (st_current a = st_current b \/
   (p_method (st_current a) = None /\ p_method (st_current b) = None)).

(* ------------------------------------------------------------------ *)
(** ** Paths into JSON values (src/src/validation/schema-validator.ts) *)

(** One step of the [for (const seg of segments)] loop of [getValueAtPath].
    Reads are of own properties: the members an object or array inherits
    from its prototype ([constructor], [toString], [map], ...) are not in
    the model, nor is the rounding of [Number(seg)]: the segment value is
    exact, as in JavaScript for values below 2^53, whose [String] is their
    decimal numeral. *)
Definition getValueAtPath_step (current : JsVal) (seg : string) : JsVal :=
  match current with
  | JObj o =>
      if all_digits seg then prop o (Z_to_dec (Z.of_nat (digits_value seg 0)))
      else prop o seg
  | JArr xs =>
      if all_digits seg then
        match nth_error xs (digits_value seg 0) with
        | Some v => v | None => JUndefined end
      else if String.eqb seg "length" then JNum (Z.of_nat (List.length xs))
      else JUndefined
  | _ => JUndefined
  end.

Definition digit_char (a : ascii) : bool :=
  (48 <=? nat_of_ascii a)%nat && (nat_of_ascii a <=? 57)%nat.

(* ------------------------------------------------------------------ *)
(** ** URLs, cookies, headers and request serialization (src/src/types/index.ts) *)

(** The WHATWG [URL] object [new URL(input, base)] builds. *)
Record URLRecord := {
  u_protocol : string;
  u_hostname : string;
  u_port : string;
  u_pathname : string;
  u_search : string;
  u_hash : string;
  u_searchParams : list (string * string)   (* [u.searchParams] entries, in order *)
}.

(** [new URL(input, base)]; [None]: it throws. *)
Class UrlRuntime := { new_URL : string -> string -> option URLRecord }.

Record ParsedUrl := {
  protocol : string;
  host : string;
  port : string;
  pathname : string;
  search : string;
  queryParams_of : JsVal;
  fragment : string
}.

Definition empty_parsed_url : ParsedUrl :=
  {| protocol := ""; host := ""; port := ""; pathname := "/"; search := "";
     queryParams_of := JObj []; fragment := "" |}.

(** [x || d] on strings. *)
Definition or_str (x d : string) : string := if String.eqb x "" then d else x.

(** One iteration of [u.searchParams.forEach((value, key) => ...)] in [parseUrl]
    (own properties of [queryParams], see [object_prototype_keys]). *)
Definition query_step (queryParams : list (string * JsVal)) (kv : string * string)
    : list (string * JsVal) :=
  let (key, value) := kv in
  match prop queryParams key with
  | JUndefined => set_prop queryParams key (JStr value)
  | JArr existing => set_prop queryParams key (JArr (existing ++ [JStr value])%list)
  | existing => set_prop queryParams key (JArr [existing; JStr value])
  end.

(** The [catch] branch of [parseUrl] (indices as [indexOf] gives them). *)
Definition parseUrl_fallback (u : string) : ParsedUrl :=
  let q := indexOf "?" u in
  let h := indexOf "#" u in
  let pathname :=
    match q, h with
    | None, None => u
    | Some q, None => slice u 0 q
    | Some q, Some h => slice u 0 (if (q <? h)%nat then q else h)
    | None, Some h => slice u 0 h
    end in
  let search :=
    match q with
    | Some q => match h with
                | Some h => if (q <? h)%nat then slice u q h else slice_from u q
                | None => slice_from u q
                end
    | None => ""
    end in
  let fragment := match h with Some h => slice_from u h | None => "" end in
  {| protocol := ""; host := ""; port := ""; pathname := or_str pathname "/";
     search := search; queryParams_of := JObj []; fragment := fragment |}.

Definition parseUrl `{UrlRuntime} (u : string) (base : option string) : ParsedUrl :=
  if String.eqb u "" then empty_parsed_url
  else match new_URL (trim u) (match base with Some b => b | None => "http://_" end) with
       | Some x =>
           {| protocol := or_str (u_protocol x) ""; host := or_str (u_hostname x) "";
              port := or_str (u_port x) ""; pathname := or_str (u_pathname x) "/";
              search := or_str (u_search x) "";
              queryParams_of := JObj (fold_left query_step (u_searchParams x) []);
              fragment := or_str (u_hash x) "" |}
       | None => parseUrl_fallback u
       end.

(** One [pair] of the loop of [parseCookieHeader]: [Some r] the record
    after it, [None] when [decodeURIComponent] throws. *)
Definition cookie_pair_step `{Runtime} (acc : option (list (string * JsVal))) (pair : string)
    : option (list (string * JsVal)) :=
  match acc with
  | None => None
  | Some result =>
      match indexOf "=" pair with
      | None => Some result
      | Some eq =>
          let key := trim (slice pair 0 eq) in
          let value := trim (slice_from pair (S eq)) in
          if String.eqb key "" then Some result
          else match decodeURIComponent key with
               | None => None
               | Some k => match decodeURIComponent value with
                           | None => None
                           | Some v => Some (set_prop result k (JStr v))
                           end
               end
      end
  end.

(** [parseCookieHeader(cookieHeader)]; the argument as a JavaScript value. *)
Definition parseCookieHeader `{Runtime} (cookieHeader : JsVal) : option (list (string * JsVal)) :=
  match cookieHeader with
  | JStr s =>
      if String.eqb s "" then Some []
      else fold_left cookie_pair_step (map trim (split_char ";" s)) (Some [])
  | _ => Some []
  end.

(** The [headers] argument of [headersToRecord] / [init.headers]. *)
Inductive HeadersSource :=
| HSNullish                                 (* null / undefined *)
| HSHeaders (entries : list (string * string))  (* a [Headers] object: its [entries()] *)
| HSRecord (fields : list (string * string))    (* a plain object *)
| HSPairs (pairs : list (string * string)).     (* a [string[][]] array of pairs *)

Fixpoint index_keys {A} (i : nat) (xs : list A) : list (string * A) :=
  match xs with
  | [] => []
  | x :: rest => (Z_to_dec (Z.of_nat i), x) :: index_keys (S i) rest
  end.

(** [headersToRecord(headers)]: [Object.fromEntries(headers.entries())] for
    [Headers], the spread [{ ...headers }] otherwise (an array spreads
    into its indices). *)
Definition headersToRecord (headers : HeadersSource) : list (string * JsVal) :=
  match headers with
  | HSNullish => []
  | HSHeaders entries => fold_left (fun r kv => set_prop r (fst kv) (JStr (snd kv))) entries []
  | HSRecord fields => map (fun kv => (fst kv, JStr (snd kv))) fields
  | HSPairs pairs => index_keys 0 (map (fun kv => JArr [JStr (fst kv); JStr (snd kv)]) pairs)
  end.

(** [a ?? b] *)
Definition nullish_or (a b : JsVal) : JsVal := if is_nullish a then b else a.

Definition getContentType (headers : list (string * JsVal)) : option string :=
  match nullish_or (prop headers "content-type") (prop headers "Content-Type") with
  | JStr v => Some v
  | _ => None
  end.

(** A [Request] object as [serializeRequest] reads it. *)
Record RequestObj := {
  rq_url : string;
  rq_method : string;
  rq_headers : list (string * string);   (* its [Headers] entries *)
  rq_hasBody : bool                       (* [input.body]: a [ReadableStream], or [null] *)
}.

(** The [input] of [fetch(input, init)]. *)
Inductive FetchInput :=
| FIString (s : string)
| FIURL (href : string)        (* a [URL] object; [String(url)] is its href *)
| FIRequest (r : RequestObj).

Record RequestInit := {
  init_method : option string;
  init_headers : HeadersSource;
  init_body : BodySource
}.

Record SerializedRequest := {
  sr_method : string;
  sr_url : string;
  sr_urlParts : ParsedUrl;
  sr_headers : list (string * JsVal);
  sr_cookies : list (string * JsVal);
  sr_body : JsVal;
  sr_bodyKind : BodyKind;
  sr_timestamp : Z
}.

Section SerializeRequest.
Context `{Runtime} `{UrlRuntime}.

(** [serializeRequest(input, init)] at time [now] ([Date.now()]);
    [None]: it throws (a cookie that [decodeURIComponent] rejects). *)
Definition serializeRequest (input : FetchInput) (init : option RequestInit) (now : Z)
    : option SerializedRequest :=
  let url := match input with FIRequest r => rq_url r | FIString s => s | FIURL h => h end in
  let method := match input with
                | FIRequest r => rq_method r
                | _ => match init with
                       | Some i => match init_method i with Some m => m | None => "GET" end
                       | None => "GET"
                       end
                end in
  let headersSource := match input with
                       | FIRequest r => HSHeaders (rq_headers r)
                       | _ => match init with Some i => init_headers i | None => HSNullish end
                       end in
  let headers := headersToRecord headersSource in
  let contentType := getContentType headers in
  let bodySource := match input with
                    | FIRequest r => if rq_hasBody r then BSReadableStream else BSNull
                    | _ => match init with Some i => init_body i | None => BSUndefined end
                    end in
  let body := parseBody bodySource contentType in
  let urlParts := parseUrl url None in
  let cookieHeader := nullish_or (prop headers "cookie") (prop headers "Cookie") in
  match parseCookieHeader cookieHeader with
  | None => None
  | Some cookies =>
      Some {| sr_method := method; sr_url := url; sr_urlParts := urlParts;
              sr_headers := headers; sr_cookies := cookies; sr_body := body;
              sr_bodyKind := inferRequestBodyKind contentType bodySource body;
              sr_timestamp := now |}
  end.

End SerializeRequest.

(** The values of key [k] among [entries], in order. *)
Definition values_for {A} (k : string) (entries : list (string * A)) : list A :=
  map snd (List.filter (fun kv => String.eqb (fst kv) k) entries).

(** One value: a string; several: an array of them. *)
Definition grouped (vs : list string) : JsVal :=
  match vs with
  | [] => JUndefined
  | [v] => JStr v
  | _ => JArr (map JStr vs)
  end.

(** The per-key transition of the [FormData] loop of [parseBody]. *)
Definition formdata_key_step (existing : JsVal) (value : FormValue) : JsVal :=
  match value with
  | FVFile name type size =>
      JArr ((match existing with JArr xs => xs | _ => [] end) ++
            [JObj [("name", JStr name); ("type", JStr type); ("size", JNum size)]])%list
  | FVString v =>
      match existing with
      | JUndefined => JStr v
      | JArr xs => JArr (xs ++ [JStr v])%list
      | e => JArr [e; JStr v]
      end
  end.

(* ------------------------------------------------------------------ *)
(** ** Error lines (src/src/validation/reporting.ts) *)

(** An evaluator error at [/0/id] as [validateWithSchema] maps it. *)
Definition sample_error_item : ValidationErrorItem := {|
  item_path := Some "/0/id"; item_message := "must be integer"; item_received := JStr "7";
  item_expectedSchema := Some (JObj [("type", JStr "integer")]); item_params := None |}.

(* ------------------------------------------------------------------ *)
(** ** Sample platforms, worlds and requests *)

(** Two interceptors just constructed ([new FetchInterceptor()] twice),
    none installed, with one validator not yet attached. *)
Definition fresh_world : World := {|
  globalFetch := NativeFetch;
  interceptors := <[1 := {| installed := false; originalFetch := None; listeners := [] |}]>
                    (<[0 := {| installed := false; originalFetch := None; listeners := [] |}]> empty);
  validators := <[0 := {| v_contracts := [status_contract]; v_onViolation := None;
                          interceptorRef := None; handlerRef := None |}]> empty;
  currentCleanup := None; fresh := 2 |}.

(** A platform whose URL parser knows one absolute URL and throws on
    everything else. *)
Definition url_table_runtime : UrlRuntime := {|
  new_URL := fun s _ =>
    if String.eqb s "http://api.test/items?tag=a&page=2&tag=b" then
      Some {| u_protocol := "http:"; u_hostname := "api.test"; u_port := "";
              u_pathname := "/items"; u_search := "?tag=a&page=2&tag=b"; u_hash := "";
              u_searchParams := [("tag", "a"); ("page", "2"); ("tag", "b")] |}
    else None
|}.

(** [sample_runtime] with a [decodeURIComponent] that throws on every
    string holding a [%]. *)
Definition strict_decode_runtime : Runtime := {|
  ajv_run := fun _ _ => AjvValid;
  json_parse := fun s => if String.eqb s "null" then Some JNull
                         else if String.eqb s "true" then Some (JBool true) else None;
  url_pathname := fun _ => None;
  decodeURIComponent := fun s => match indexOf "%" s with Some _ => None | None => Some s end
|}.

Definition upper_cookie_init : RequestInit := {|
  init_method := None; init_headers := HSRecord [("Cookie", "a=1; b=%")];
  init_body := BSUndefined |}.

Definition mixed_case_init : RequestInit := {|
  init_method := Some "POST"; init_headers := HSRecord [("Content-type", "application/json")];
  init_body := BSString "true" |}.

(* ================================================================== *)
(** * Theorems *)

(** ** Path matching *)

Lemma segments_match_spec (b a : list string) :
  length b = length a ->
  segments_match b a = true <->
  (forall i p s, b !! i = Some p -> a !! i = Some s ->
     startsWith p ":" = true \/ p = s).
Proof.
  revert a; induction b as [|p b IH]; intros [|s a] Hlen; simpl in *;
    try discriminate.
  - split; [intros _ i p s Hp; rewrite lookup_nil in Hp; discriminate | done].
  - injection Hlen as Hlen.
    split.
    + intros Hm [|i] p' s' Hp Hs; simpl in Hp, Hs.
      * injection Hp as <-; injection Hs as <-.
        destruct (startsWith p ":"); [by left|].
        destruct (String.eqb_spec p s); [by right | discriminate].
      * destruct (startsWith p ":");
          [| destruct (String.eqb p s); simpl in Hm; [|discriminate]];
          apply (proj1 (IH a Hlen) Hm i); done.
    + intros H.
      assert (Htail : segments_match b a = true).
      { apply (proj2 (IH a Hlen)). intros i p' s' Hp Hs.
        apply (H (S i)); done. }
      destruct (startsWith p ":") eqn:Hc; [done|].
      destruct (H 0 p s eq_refl eq_refl) as [Hx | ->]; [congruence|].
      rewrite String.eqb_refl. done.
Qed.

Lemma matchPathPattern_spec (pathname pattern : string) :
  matchPathPattern pathname pattern = true <-> path_matches pathname pattern.
Proof.
  unfold matchPathPattern, path_matches, segment_rule.
  fold (path_segments pathname) (path_segments pattern).
  destruct (Nat.eqb_spec (length (path_segments pathname))
                         (length (path_segments pattern))) as [E|E]; simpl.
  - rewrite segments_match_spec by done. split; [intros H; split; done|].
    intros [_ H]. exact H.
  - split; [discriminate|]. intros [H _]. lia.
Qed.

Lemma findContract_loop_spec (nm pathname : string) (cs : list ContractDefinition) :
  match findContract_loop nm pathname cs with
  | Some c => exists pre post, cs = (pre ++ c :: post)%list /\
      toUpperCase (method c) = nm /\ path_matches pathname (path c) /\
      Forall (fun c' => ~ (toUpperCase (method c') = nm /\
                           path_matches pathname (path c'))) pre
  | None => Forall (fun c' => ~ (toUpperCase (method c') = nm /\
                                 path_matches pathname (path c'))) cs
  end.
Proof.
  induction cs as [|c cs IH]; simpl; [constructor|].
  destruct (String.eqb_spec (toUpperCase (method c)) nm) as [Em|Em]; simpl.
  - destruct (matchPathPattern pathname (path c)) eqn:Hm.
    + exists [], cs. apply matchPathPattern_spec in Hm.
      split; [done|]. split; [done|]. split; [done | constructor].
    + assert (Hn : ~ path_matches pathname (path c)).
      { rewrite <- matchPathPattern_spec. congruence. }
      destruct (findContract_loop nm pathname cs) as [c'|].
      * destruct IH as (pre & post & -> & H1 & H2 & H3).
        exists (c :: pre), post. split; [done|]. split; [done|]. split; [done|].
        constructor; [tauto | done].
      * constructor; [tauto | done].
  - destruct (findContract_loop nm pathname cs) as [c'|].
    + destruct IH as (pre & post & -> & H1 & H2 & H3).
      exists (c :: pre), post. split; [done|]. split; [done|]. split; [done|].
      constructor; [tauto | done].
    + constructor; [tauto | done].
Qed.

(** ** Body kinds *)

Lemma BodyKind_eqb_spec (a b : BodyKind) : BodyKind_eqb a b = true <-> a = b.
Proof. destruct a, b; simpl; split; congruence. Qed.

Lemma inferRequestBodyKind_order (ct : option string) (src : BodySource) (pb : JsVal) :
  inferRequestBodyKind ct src pb =
  if bodySource_nullish src then BKempty
  else match structural_kind src with
       | Some k => k
       | None => if BodyKind_eqb (inferBodyKindFromContentType ct) BKunknown
                 then request_shape_kind pb
                 else inferBodyKindFromContentType ct
       end.
Proof.
  unfold inferRequestBodyKind.
  destruct src; try reflexivity; simpl;
    destruct (BodyKind_eqb (inferBodyKindFromContentType ct) BKunknown); simpl;
    try reflexivity; destruct pb; reflexivity.
Qed.

Lemma inferResponseBodyKind_order (ct : option string) (pb : JsVal) :
  inferResponseBodyKind ct pb =
  if is_nullish pb then BKempty
  else if BodyKind_eqb (inferBodyKindFromContentType ct) BKunknown
       then response_shape_kind pb
       else inferBodyKindFromContentType ct.
Proof.
  unfold inferResponseBodyKind.
  destruct (is_nullish pb) eqn:Hn; [reflexivity|].
  destruct (BodyKind_eqb (inferBodyKindFromContentType ct) BKunknown); simpl;
    [|reflexivity].
  destruct pb; try discriminate; reflexivity.
Qed.

(** ** Non-destructive capture *)

Lemma consume_body_frame (r i : nat) (h : Heap) :
  i <> r -> objs (fst (consume_body r h)) !! i = objs h !! i.
Proof.
  intros Hne. unfold consume_body.
  destruct (objs h !! r) as [resp|]; [|done].
  destruct (r_bodyUsed resp); simpl; [done|].
  rewrite lookup_insert_ne; done.
Qed.

Lemma consume_body_local (r : nat) (h h' : Heap) :
  objs h' !! r = objs h !! r ->
  snd (consume_body r h') = snd (consume_body r h).
Proof.
  intros E. unfold consume_body. rewrite E.
  destruct (objs h !! r) as [resp|]; [|done].
  destruct (r_bodyUsed resp); done.
Qed.

Section Reads.
Context `{Runtime}.

Lemma response_text_frame (r i : nat) (h : Heap) :
  i <> r -> objs (fst (response_text r h)) !! i = objs h !! i.
Proof. apply consume_body_frame. Qed.

Lemma response_json_frame (r i : nat) (h : Heap) :
  i <> r -> objs (fst (response_json r h)) !! i = objs h !! i.
Proof.
  intros Hne. unfold response_json.
  pose proof (consume_body_frame r i h Hne) as F.
  destruct (consume_body r h) as [h' v]; exact F.
Qed.

Lemma response_arrayBuffer_frame (r i : nat) (h : Heap) :
  i <> r -> objs (fst (response_arrayBuffer r h)) !! i = objs h !! i.
Proof.
  intros Hne. unfold response_arrayBuffer.
  pose proof (consume_body_frame r i h Hne) as F.
  destruct (consume_body r h) as [h' v]; exact F.
Qed.

Lemma body_read_local (k : BodyRead) (r : nat) (h h' : Heap) :
  objs h' !! r = objs h !! r ->
  snd (body_read k r h') = snd (body_read k r h).
Proof.
  intros E. pose proof (consume_body_local r h h' E) as L.
  destruct k; simpl; unfold response_text, response_json, response_arrayBuffer.
  - destruct (consume_body r h') as [h1 v1], (consume_body r h) as [h2 v2].
    simpl in *. by subst.
  - destruct (consume_body r h') as [h1 v1], (consume_body r h) as [h2 v2].
    simpl in *. by subst.
  - destruct (consume_body r h') as [h1 v1], (consume_body r h) as [h2 v2].
    simpl in *. by subst.
Qed.

(** The asynchronous part of [serializeResponse] touches no object but
    the clone. *)
Lemma serializeResponse_async_frame (p : PendingCapture) (h : Heap) (i : nat) :
  i <> pc_clone p ->
  objs (fst (serializeResponse_async p h)) !! i = objs h !! i.
Proof.
  intros Hne. unfold serializeResponse_async.
  destruct (isBinaryMedia _).
  - pose proof (response_arrayBuffer_frame (pc_clone p) i h Hne) as F.
    destruct (response_arrayBuffer (pc_clone p) h) as [h' [n|]]; exact F.
  - destruct (isJsonContentType _).
    + pose proof (response_json_frame (pc_clone p) i h Hne) as F.
      destruct (response_json (pc_clone p) h) as [h' [v|]]; [exact F|].
      pose proof (response_text_frame (pc_clone p) i h' Hne) as F'.
      simpl in F.
      destruct (response_text (pc_clone p) h') as [h'' [t|]]; simpl in *; congruence.
    + pose proof (response_text_frame (pc_clone p) i h Hne) as F.
      destruct (response_text (pc_clone p) h) as [h' [t|]]; exact F.
Qed.

Lemma serializeResponse_sync_spec (r : nat) (h : Heap) (resp : Response) :
  heap_wf h -> objs h !! r = Some resp -> r_bodyUsed resp = false ->
  next_id h <> r /\
  (forall i, i <> next_id h -> objs (fst (serializeResponse_sync r h)) !! i = objs h !! i) /\
  (forall p, snd (serializeResponse_sync r h) = Some p -> pc_clone p = next_id h).
Proof.
  intros Hwf Hr Hu.
  assert (Hc : next_id h <> r).
  { intros E. rewrite (Hwf r) in Hr; [discriminate | lia]. }
  split; [exact Hc|].
  unfold serializeResponse_sync, clone_response. rewrite Hr, Hu. simpl.
  rewrite lookup_insert_ne by congruence. rewrite Hr.
  destruct (getResponseCookies (r_setCookies resp)); simpl.
  - split; [intros i Hi; by rewrite lookup_insert_ne | intros p [= <-]; done].
  - split; [intros i Hi; by rewrite lookup_insert_ne | discriminate].
Qed.

End Reads.

(** Claim C1. Capture is non-destructive: the fetch wrapper hands back the
    response object it received; [serializeResponse] clones it before its
    first [await] and its body reads touch only the clone; so a body read
    by the caller, before or after the capture finishes, gives what it
    would have given had no capture run. *)
Theorem capture_is_non_destructive `{Runtime} (h : Heap) (r : nat) (resp : Response)
    (k : BodyRead) :
  heap_wf h -> objs h !! r = Some resp -> r_bodyUsed resp = false ->
  let '(h1, returned, pending) := wrapFetch_onFulfilled r h in
  returned = r /\
  (forall p, pending = Some p ->
     pc_clone p <> r /\
     forall h' i, i <> pc_clone p ->
       objs (fst (serializeResponse_async p h')) !! i = objs h' !! i) /\
  snd (body_read k r h1) = snd (body_read k r h) /\
  (forall p, pending = Some p ->
     snd (body_read k r (fst (serializeResponse_async p h1))) = snd (body_read k r h)).
Proof.
  intros Hwf Hr Hu.
  destruct (serializeResponse_sync_spec r h resp Hwf Hr Hu) as (Hc & Hframe & Hclone).
  unfold wrapFetch_onFulfilled.
  destruct (serializeResponse_sync r h) as [h1 pending] eqn:Hs. simpl in *.
  assert (Hr1 : objs h1 !! r = objs h !! r) by (apply Hframe; congruence).
  split; [done|]. split.
  { intros p Hp. rewrite (Hclone p Hp). split; [exact Hc|].
    intros h' i Hi. apply serializeResponse_async_frame. rewrite (Hclone p Hp). exact Hi. }
  split.
  { apply body_read_local. exact Hr1. }
  intros p Hp. apply body_read_local.
  rewrite serializeResponse_async_frame; [exact Hr1|].
  rewrite (Hclone p Hp). congruence.
Qed.

Lemma capture_is_non_destructive_witness :
  let '(h1, returned, pending) := @wrapFetch_onFulfilled sample_runtime 0 sample_heap in
  returned = 0 /\
  (forall p, pending = Some p ->
     pc_clone p <> 0 /\
     forall h' i, i <> pc_clone p ->
       objs (fst (@serializeResponse_async sample_runtime p h')) !! i = objs h' !! i) /\
  snd (@body_read sample_runtime ReadJson 0 h1) = snd (@body_read sample_runtime ReadJson 0 sample_heap) /\
  (forall p, pending = Some p ->
     snd (@body_read sample_runtime ReadJson 0 (fst (@serializeResponse_async sample_runtime p h1)))
     = snd (@body_read sample_runtime ReadJson 0 sample_heap)).
Proof.
  apply (@capture_is_non_destructive sample_runtime sample_heap 0 sample_response ReadJson).
  - intros i Hi. unfold sample_heap in *; simpl in *.
    rewrite lookup_insert_ne by lia. apply lookup_empty.
  - reflexivity.
  - reflexivity.
Defined.

(** ** The validator *)

Section ValidatorProofs.
Context `{Runtime}.

Lemma emitViolation_returns (c : ContractDefinition) (req : CapturedRequest)
    (resp : CapturedResponse) (k : ContractValidationKind)
    (errs : option (list ValidationErrorItem)) (cb : OnViolation) (tr : list Event) :
  callback_returns cb ->
  emitViolation c req resp k errs cb tr =
  ((tr ++ delivery cb (mk_result c req resp k errs))%list, Some tt).
Proof.
  intros Hcb. unfold emitViolation, ebind, call_onViolation, logViolation, delivery.
  destruct cb as [f|]; simpl.
  - rewrite (Hcb f eq_refl). by rewrite <- app_assoc.
  - reflexivity.
Qed.

Lemma aspect_step_returns (c : ContractDefinition) (req : CapturedRequest)
    (resp : CapturedResponse) (cb : OnViolation) (k : ContractValidationKind)
    (tr : list Event) :
  callback_returns cb ->
  aspect_step c req resp cb k tr =
  ((tr ++ flat_map (delivery cb) (aspect_failure c req resp k))%list, Some tt).
Proof.
  intros Hcb. unfold aspect_step, aspect_failure.
  destruct (aspect_input c req resp k) as [r|]; simpl.
  - destruct (valid r); simpl.
    + by rewrite app_nil_r.
    + rewrite emitViolation_returns by exact Hcb. by rewrite app_nil_r.
  - by rewrite app_nil_r.
Qed.

Lemma handler_matched (contracts : list ContractDefinition) (cb : OnViolation)
    (payload : InterceptorResponsePayload) (req : CapturedRequest)
    (c : ContractDefinition) (tr : list Event) :
  pl_request payload = Some req ->
  findContract contracts (req_method req) (pathnameFromUrl (url req)) = Some c ->
  handler contracts cb payload tr =
  (let step := aspect_step c req (pl_response payload) cb in
   (step RequestBody ;;; step RequestQuery ;;; step RequestHeaders ;;;
    step RequestCookies ;;; step ResponseBody ;;; step ResponseStatus ;;;
    step ResponseHeaders ;;; step ResponseCookies) tr).
Proof. intros Hr Hc. unfold handler. rewrite Hr. simpl. rewrite Hc. reflexivity. Qed.

Lemma handler_trace (contracts : list ContractDefinition) (cb : OnViolation)
    (payload : InterceptorResponsePayload) (req : CapturedRequest)
    (c : ContractDefinition) (tr : list Event) :
  pl_request payload = Some req ->
  findContract contracts (req_method req) (pathnameFromUrl (url req)) = Some c ->
  callback_returns cb ->
  handler contracts cb payload tr =
  ((tr ++ flat_map (delivery cb) (failing_results c req (pl_response payload)))%list,
   Some tt).
Proof.
  intros Hr Hc Hcb. rewrite (handler_matched contracts cb payload req c tr Hr Hc).
  unfold failing_results, all_kinds. cbv zeta. unfold ebind.
  repeat rewrite aspect_step_returns by exact Hcb.
  simpl. repeat rewrite flat_map_app. simpl. rewrite app_nil_r.
  repeat rewrite app_assoc. reflexivity.
Qed.

End ValidatorProofs.

(** Claim C3. Each violation result is handed to the user callback (when
    one is registered) and then logged, in that order, when the callback
    returns; a callback that throws ends [emitViolation] right there, so
    that violation is not logged and the exception propagates. *)
Theorem emitViolation_order `{Runtime} (c : ContractDefinition) (req : CapturedRequest)
    (resp : CapturedResponse) (k : ContractValidationKind)
    (errs : option (list ValidationErrorItem)) (cb : OnViolation) (tr : list Event) :
  let result := mk_result c req resp k errs in
  emitViolation c req resp k errs cb tr =
  match cb with
  | None => ((tr ++ [EvLog result (logViolation_lines result)])%list, Some tt)
  | Some f =>
      match f result with
      | Returns => ((tr ++ [EvCallback result; EvLog result (logViolation_lines result)])%list,
                    Some tt)
      | Throws => ((tr ++ [EvCallback result])%list, None)
      end
  end.
Proof.
  cbv zeta. unfold emitViolation, ebind, call_onViolation, logViolation.
  destruct cb as [f|]; [|reflexivity].
  destruct (f (mk_result c req resp k errs)); simpl; [|reflexivity].
  by rewrite <- app_assoc.
Qed.

(** Claim C3 fails: a callback that throws suppresses the log line of the
    very violation it was given. *)
Lemma emitViolation_throwing_callback_skips_log :
  let result := mk_result status_contract sample_request (sample_captured 404)
                  ResponseStatus None in
  emitViolation status_contract sample_request (sample_captured 404) ResponseStatus None
    throwing_callback [] = ([EvCallback result], None) /\
  callback_results [EvCallback result] = [result] /\
  logged_results [EvCallback result] = [].
Proof. split; [|split]; reflexivity. Qed.

Section AspectKinds.
Context `{Runtime}.

Lemma aspect_failure_kinds (c : ContractDefinition) (req : CapturedRequest)
    (resp : CapturedResponse) (k : ContractValidationKind) :
  map res_kind (aspect_failure c req resp k) =
  if aspect_fails c req resp k then [k] else [].
Proof.
  unfold aspect_failure, aspect_fails.
  destruct (aspect_input c req resp k) as [r|]; [|done].
  destruct (valid r); done.
Qed.

Lemma failing_results_kinds (c : ContractDefinition) (req : CapturedRequest)
    (resp : CapturedResponse) :
  map res_kind (failing_results c req resp) =
  List.filter (aspect_fails c req resp) all_kinds.
Proof.
  unfold failing_results. generalize all_kinds as l.
  induction l as [|k l IH]; [done|]. simpl.
  rewrite map_app, aspect_failure_kinds, IH.
  destruct (aspect_fails c req resp k); done.
Qed.

Lemma all_kinds_NoDup : List.NoDup all_kinds.
Proof.
  unfold all_kinds. repeat constructor; simpl; intuition discriminate.
Qed.

Lemma all_kinds_complete (k : ContractValidationKind) : In k all_kinds.
Proof. destruct k; simpl; tauto. Qed.

End AspectKinds.

Section HandlerDelivery.
Context `{Runtime}.

Lemma deliver_results_app (cb : OnViolation) (l1 l2 : list ContractValidationResult)
    (tr : list Event) :
  deliver_results cb (l1 ++ l2) tr =
  match deliver_results cb l1 tr with
  | (tr', Some _) => deliver_results cb l2 tr'
  | (tr', None) => (tr', None)
  end.
Proof.
  revert tr. induction l1 as [|r l1 IH]; intros tr; [reflexivity|].
  simpl. unfold ebind at 1 3.
  destruct ((call_onViolation cb r ;;; logViolation r) tr) as [t1 [[]|]]; [apply IH|reflexivity].
Qed.

Lemma ebind_eret (m : Emit unit) (tr : list Event) : (m ;;; eret tt) tr = m tr.
Proof. unfold ebind. destruct (m tr) as [t [[]|]]; reflexivity. Qed.

Lemma aspect_step_deliver (c : ContractDefinition) (req : CapturedRequest)
    (resp : CapturedResponse) (cb : OnViolation) (k : ContractValidationKind)
    (tr : list Event) :
  aspect_step c req resp cb k tr = deliver_results cb (aspect_failure c req resp k) tr.
Proof.
  unfold aspect_step, aspect_failure.
  destruct (aspect_input c req resp k) as [r|]; [|reflexivity].
  destruct (valid r); [reflexivity|]. simpl. rewrite ebind_eret. reflexivity.
Qed.

Lemma aspect_chain_deliver (c : ContractDefinition) (req : CapturedRequest)
    (resp : CapturedResponse) (cb : OnViolation) (k : ContractValidationKind)
    (ks : list ContractValidationKind) (tr : list Event) :
  aspect_chain (aspect_step c req resp cb) k ks tr =
  deliver_results cb (flat_map (aspect_failure c req resp) (k :: ks)) tr.
Proof.
  revert k tr. induction ks as [|k' ks IH]; intros k tr.
  - simpl. rewrite app_nil_r. apply aspect_step_deliver.
  - change (flat_map (aspect_failure c req resp) (k :: k' :: ks))
      with (aspect_failure c req resp k ++ flat_map (aspect_failure c req resp) (k' :: ks))%list.
    rewrite deliver_results_app, <- aspect_step_deliver. simpl. unfold ebind at 1.
    destruct (aspect_step c req resp cb k tr) as [t1 [[]|]]; [apply IH|reflexivity].
Qed.

Lemma handler_deliver (contracts : list ContractDefinition) (cb : OnViolation)
    (payload : InterceptorResponsePayload) (req : CapturedRequest)
    (c : ContractDefinition) (tr : list Event) :
  pl_request payload = Some req ->
  findContract contracts (req_method req) (pathnameFromUrl (url req)) = Some c ->
  handler contracts cb payload tr =
  deliver_results cb (failing_results c req (pl_response payload)) tr.
Proof.
  intros Hr Hc. rewrite (handler_matched contracts cb payload req c tr Hr Hc).
  unfold failing_results, all_kinds. rewrite <- aspect_chain_deliver. reflexivity.
Qed.

Lemma deliver_results_returns (f : ContractValidationResult -> CallbackOutcome)
    (pre : list ContractValidationResult) (tr : list Event) :
  Forall (fun x => f x = Returns) pre ->
  deliver_results (Some f) pre tr = ((tr ++ flat_map (delivery (Some f)) pre)%list, Some tt).
Proof.
  intros Hpre. revert tr. induction Hpre as [|x pre Hx Hpre IH]; intros tr.
  - simpl. by rewrite app_nil_r.
  - simpl. unfold ebind, call_onViolation, logViolation. rewrite Hx. simpl.
    rewrite IH. unfold delivery. by rewrite <- !app_assoc.
Qed.

Lemma deliver_results_throws (f : ContractValidationResult -> CallbackOutcome)
    (pre post : list ContractValidationResult) (r : ContractValidationResult) (tr : list Event) :
  Forall (fun x => f x = Returns) pre -> f r = Throws ->
  deliver_results (Some f) (pre ++ r :: post) tr =
  ((tr ++ flat_map (delivery (Some f)) pre ++ [EvCallback r])%list, None).
Proof.
  intros Hpre Hr. rewrite deliver_results_app, deliver_results_returns by exact Hpre.
  simpl. unfold ebind, call_onViolation. rewrite Hr. by rewrite <- app_assoc.
Qed.

End HandlerDelivery.

(** Claim C5 (as amended). For an exchange matched to a contract, the
    failing aspects give exactly one result each: no two results share an
    aspect, and an aspect has a result iff it is declared and its check
    fails.  While the violation callback (if any) returns normally, all
    eight checks run and every result is delivered on its own: the event
    trace is the concatenation of the per-result deliveries.  When the
    callback throws on a result, the handler ends there with the exception
    ([None]): the results before it were delivered, that one reached only
    the callback, and no later aspect check produces anything. *)
Theorem handler_one_result_per_failing_aspect `{Runtime}
    (contracts : list ContractDefinition) (cb : OnViolation)
    (payload : InterceptorResponsePayload) (req : CapturedRequest)
    (c : ContractDefinition) (tr : list Event) :
  pl_request payload = Some req ->
  findContract contracts (req_method req) (pathnameFromUrl (url req)) = Some c ->
  let results := failing_results c req (pl_response payload) in
  (callback_returns cb ->
   handler contracts cb payload tr = ((tr ++ flat_map (delivery cb) results)%list, Some tt)) /\
  (forall f pre r post, cb = Some f -> results = (pre ++ r :: post)%list ->
   Forall (fun x => f x = Returns) pre -> f r = Throws ->
   handler contracts cb payload tr =
   ((tr ++ flat_map (delivery cb) pre ++ [EvCallback r])%list, None)) /\
  List.NoDup (map res_kind results) /\
  (forall k, In k (map res_kind results) <->
     exists r, aspect_input c req (pl_response payload) k = Some r /\ valid r = false).
Proof.
  intros Hr Hc. cbv zeta.
  split; [intros Hcb; exact (handler_trace contracts cb payload req c tr Hr Hc Hcb)|].
  split.
  { intros f pre r post -> Hres Hpre Hf.
    rewrite (handler_deliver contracts (Some f) payload req c tr Hr Hc), Hres.
    apply deliver_results_throws; assumption. }
  rewrite failing_results_kinds. split.
  - apply List.NoDup_filter, all_kinds_NoDup.
  - intros k. rewrite filter_In. unfold aspect_fails.
    pose proof (all_kinds_complete k).
    destruct (aspect_input c req (pl_response payload) k) as [r|].
    + split.
      * intros [_ Hf]. exists r. split; [done|]. by destruct (valid r).
      * intros (r' & [= <-] & Hv). rewrite Hv. done.
    + split; [intros [_ Hf]; discriminate | intros (r' & Hf & _); discriminate].
Qed.

Definition sample_payload (st : Z) : InterceptorResponsePayload :=
  {| pl_response := sample_captured st; pl_request := Some sample_request |}.

Lemma handler_one_result_per_failing_aspect_witness :
  let results := @failing_results rejecting_runtime body_and_headers_contract
                   sample_request (pl_response (sample_payload 200)) in
  (callback_returns throwing_callback ->
   @handler rejecting_runtime [body_and_headers_contract] throwing_callback (sample_payload 200) []
   = (([] ++ flat_map (delivery throwing_callback) results)%list, Some tt)) /\
  (forall f pre r post, throwing_callback = Some f -> results = (pre ++ r :: post)%list ->
   Forall (fun x => f x = Returns) pre -> f r = Throws ->
   @handler rejecting_runtime [body_and_headers_contract] throwing_callback (sample_payload 200) []
   = (([] ++ flat_map (delivery throwing_callback) pre ++ [EvCallback r])%list, None)) /\
  List.NoDup (map res_kind results) /\
  (forall k, In k (map res_kind results) <->
     exists r, @aspect_input rejecting_runtime body_and_headers_contract sample_request
                 (pl_response (sample_payload 200)) k = Some r /\ valid r = false).
Proof.
  apply (@handler_one_result_per_failing_aspect rejecting_runtime
           [body_and_headers_contract] throwing_callback (sample_payload 200) sample_request
           body_and_headers_contract []).
  - reflexivity.
  - reflexivity.
Defined.

(** Claim C5 fails when the callback throws: the request body and the
    request headers both fail, yet only the request-body result is ever
    produced, because the exception thrown while it is delivered ends the
    handler before the header check runs. *)
Lemma handler_throwing_callback_stops_checks :
  map res_kind (@failing_results rejecting_runtime body_and_headers_contract
                  sample_request (sample_captured 200)) = [RequestBody; RequestHeaders] /\
  map res_kind (callback_results
    (fst (@handler rejecting_runtime [body_and_headers_contract] throwing_callback
            (sample_payload 200) []))) = [RequestBody] /\
  logged_results (fst (@handler rejecting_runtime [body_and_headers_contract]
                         throwing_callback (sample_payload 200) [])) = [].
Proof. split; [|split]; vm_compute; reflexivity. Qed.

(** Claim C6. The status check is a set-membership test: the
    response-status aspect yields a violation iff the contract declares a
    non-empty list of allowed codes that does not contain the response
    status; an absent or empty list skips the check.  For the scenario of
    a contract allowing [200, 201] and a [404] response with no body
    schema, the handler logs one response-status violation and nothing
    else. *)
Theorem status_check_is_membership `{Runtime} (c : ContractDefinition)
    (req : CapturedRequest) (resp : CapturedResponse) :
  (aspect_failure c req resp ResponseStatus <> [] <->
   exists allowed, allowedResponseStatusCodes c = Some allowed /\ allowed <> [] /\
                   ~ In (status resp) allowed) /\
  ((allowedResponseStatusCodes c = None \/ allowedResponseStatusCodes c = Some []) ->
   aspect_input c req resp ResponseStatus = None) /\
  map res_kind (logged_results (fst (handler [status_contract] None (sample_payload 404) [])))
    = [ResponseStatus] /\
  callback_results (fst (handler [status_contract] None (sample_payload 404) [])) = [].
Proof.
  split; [|split; [|split]].
  - unfold aspect_failure, aspect_input.
    destruct (allowedResponseStatusCodes c) as [allowed|].
    + destruct allowed as [|z zs].
      * simpl. split; [done|]. intros (a & [= <-] & Hne & _). done.
      * simpl. unfold validateStatusCode. simpl.
        destruct (Z.eqb_spec (status resp) z) as [E|E]; simpl.
        -- split; [done|]. intros (a & [= <-] & _ & Hn). exfalso. apply Hn. left. done.
        -- destruct (existsb (Z.eqb (status resp)) zs) eqn:Ex; simpl.
           ++ split; [done|]. intros (a & [= <-] & _ & Hn). exfalso. apply Hn. right.
              apply existsb_exists in Ex as (x & Hx & Hz).
              apply Z.eqb_eq in Hz. subst. done.
           ++ split; [|done]. intros _. exists (z :: zs). split; [done|]. split; [done|].
              intros [Hz|Hz]; [congruence|].
              assert (existsb (Z.eqb (status resp)) zs = true) as Ht.
              { apply existsb_exists. exists (status resp). split; [done|]. apply Z.eqb_refl. }
              congruence.
    + split; [done|]. intros (a & Ha & _). discriminate.
  - unfold aspect_input. intros [-> | ->]; done.
  - vm_compute. reflexivity.
  - vm_compute. reflexivity.
Qed.

(** Claim C7 (as amended). [validateWithSchema] returns, never throws:
    when the evaluator throws, the result is invalid with exactly one
    item that carries only the message; and, while the violation callback
    returns normally, the handler completes without an exception after
    running every aspect check, whatever the evaluator does. *)
Theorem validateWithSchema_recovers `{Runtime} (schema : JsonSchema) (data : JsVal)
    (msg : string) :
  ajv_run schema data = AjvThrows msg ->
  validateWithSchema data schema =
    {| valid := false; errors := Some [generic_error_item msg] |} /\
  generic_error_item msg =
    {| item_path := None; item_message := msg; item_received := JUndefined;
       item_expectedSchema := None; item_params := None |} /\
  (forall contracts cb payload req c tr,
     pl_request payload = Some req ->
     findContract contracts (req_method req) (pathnameFromUrl (url req)) = Some c ->
     callback_returns cb ->
     handler contracts cb payload tr =
     ((tr ++ flat_map (delivery cb) (failing_results c req (pl_response payload)))%list,
      Some tt)).
Proof.
  intros Hthrow. split; [|split].
  - unfold validateWithSchema. rewrite Hthrow. reflexivity.
  - reflexivity.
  - intros contracts cb payload req c tr Hr Hc Hcb.
    exact (handler_trace contracts cb payload req c tr Hr Hc Hcb).
Qed.

Lemma validateWithSchema_recovers_witness :
  @validateWithSchema throwing_runtime JNull [] =
    {| valid := false; errors := Some [generic_error_item "schema is invalid"] |} /\
  generic_error_item "schema is invalid" =
    {| item_path := None; item_message := "schema is invalid"; item_received := JUndefined;
       item_expectedSchema := None; item_params := None |} /\
  (forall contracts cb payload req c tr,
     pl_request payload = Some req ->
     findContract contracts (req_method req) (@pathnameFromUrl throwing_runtime (url req)) = Some c ->
     callback_returns cb ->
     @handler throwing_runtime contracts cb payload tr =
     ((tr ++ flat_map (delivery cb)
                (@failing_results throwing_runtime c req (pl_response payload)))%list,
      Some tt)).
Proof.
  apply (@validateWithSchema_recovers throwing_runtime [] JNull "schema is invalid").
  reflexivity.
Defined.

(** Claim C7 fails when the callback throws: the evaluator throws on both
    declared schemas, the first generic violation reaches the callback,
    and its exception ends the handler, so the header check never runs. *)
Lemma evaluator_throw_then_callback_throw_stops_checks :
  map res_kind (@failing_results throwing_runtime body_and_headers_contract
                  sample_request (sample_captured 200)) = [RequestBody; RequestHeaders] /\
  map res_kind (callback_results
    (fst (@handler throwing_runtime [body_and_headers_contract] throwing_callback
            (sample_payload 200) []))) = [RequestBody] /\
  snd (@handler throwing_runtime [body_and_headers_contract] throwing_callback
         (sample_payload 200) []) = None.
Proof. split; [|split]; vm_compute; reflexivity. Qed.

(** ** The registration lifecycle *)

Lemma unregister_idempotent (w : World) :
  unregister (unregister w) = unregister w.
Proof.
  unfold unregister. destruct (currentCleanup w) eqn:E; simpl; try rewrite E; reflexivity.
Qed.

Lemma unregister_nothing_registered (w : World) :
  currentCleanup w = None -> unregister w = w.
Proof. intros E. unfold unregister. rewrite E. reflexivity. Qed.

(** Claim C8. A config that is not an object with a [contracts] array, or
    whose array is empty, makes [register] throw a [TypeError] and leaves
    the world as it was: fetch, the objects and the registration slot. *)
Theorem register_rejects_bad_config (cfg : ConfigInput) (cb : OnViolation) (w : World) :
  match cfg with CfgObject (Some (_ :: _)) => False | _ => True end ->
  exists msg, register cfg cb w = (w, ThrewTypeError msg).
Proof.
  intros Hbad. destruct cfg as [| |[[|c cs]|]]; simpl; try (eexists; reflexivity).
  contradiction.
Qed.

Lemma register_rejects_bad_config_witness :
  exists msg, register (CfgObject (Some [])) None (after_register sample_config initial_world)
              = (after_register sample_config initial_world, ThrewTypeError msg).
Proof.
  apply (register_rejects_bad_config (CfgObject (Some [])) None
           (after_register sample_config initial_world)).
  exact I.
Defined.

(** Claim C10 does not hold: after [h1 = register(c1); register(c2);
    h1.unregister()] the stale handle has emptied the registration slot
    while the second pipeline stays installed, so a later [unregister()]
    does nothing and fetch stays wrapped by the second interceptor. *)
Theorem stale_handle_orphans_second_pipeline :
  let w1 := after_register sample_config initial_world in
  let w2 := after_register sample_config w1 in
  let w3 := handle_unregister 0 w2 in
  let w4 := unregister w3 in
  snd (register sample_config None initial_world) = Registered 0 /\
  snd (register sample_config None w1) = Registered 1 /\
  globalFetch w3 = WrappedFetch 1 /\
  option_map interceptorRef (validators w3 !! 1) = Some (Some 1) /\
  currentCleanup w3 = None /\
  globalFetch w4 = WrappedFetch 1 /\
  option_map installed (interceptors w4 !! 1) = Some true /\
  option_map interceptorRef (validators w4 !! 1) = Some (Some 1).
Proof. vm_compute. repeat split. Qed.

(** Claim C2 does not hold: after the same stale [h1.unregister()], a
    third [register] finds the slot empty, tears nothing down and installs
    its interceptor over the second one: fetch is wrapped twice and two
    validators are attached. *)
Theorem stale_handle_then_register_double_wraps :
  let w1 := after_register sample_config initial_world in
  let w2 := after_register sample_config w1 in
  let w3 := handle_unregister 0 w2 in
  let w4 := after_register sample_config w3 in
  globalFetch w4 = WrappedFetch 2 /\
  option_map originalFetch (interceptors w4 !! 2) = Some (Some (WrappedFetch 1)) /\
  option_map installed (interceptors w4 !! 1) = Some true /\
  option_map originalFetch (interceptors w4 !! 1) = Some (Some NativeFetch) /\
  option_map interceptorRef (validators w4 !! 1) = Some (Some 1) /\
  option_map interceptorRef (validators w4 !! 2) = Some (Some 2).
Proof. vm_compute. repeat split. Qed.

(** ** Contract lookup *)

(** Claim C4 (as amended). [findContract] returns the first contract, in
    registration order, whose method equals the request method after
    upper-casing both and whose pattern matches the pathname, and none
    when no contract does; a pathname matches a pattern iff, after
    splitting both on '/' and dropping every empty segment (leading,
    trailing or between repeated slashes), the segment counts are equal
    and each pattern segment starts with ':' or equals the path segment.
    So '/api/users/:id' matches '/api/users/42' but not
    '/api/users/42/posts', and of two matching contracts [A; B] the
    first is returned. *)
Theorem findContract_first_match :
  (forall pathname pattern,
     matchPathPattern pathname pattern = true <-> path_matches pathname pattern) /\
  (forall (cs : list ContractDefinition) m pathname c,
     findContract cs m pathname = Some c ->
     exists pre post, cs = (pre ++ c :: post)%list /\ contract_applies m pathname c /\
       Forall (fun c' => ~ contract_applies m pathname c') pre) /\
  (forall (cs : list ContractDefinition) m pathname,
     findContract cs m pathname = None ->
     Forall (fun c' => ~ contract_applies m pathname c') cs) /\
  path_matches "/api/users/42" "/api/users/:id" /\
  ~ path_matches "/api/users/42/posts" "/api/users/:id" /\
  (forall (A B : ContractDefinition) m pathname,
     contract_applies m pathname A -> findContract [A; B] m pathname = Some A).
Proof.
  split; [exact matchPathPattern_spec|]. split; [|split; [|split; [|split]]].
  - intros cs m pathname c Hf. unfold findContract in Hf.
    pose proof (findContract_loop_spec (toUpperCase m) pathname cs) as Hs.
    rewrite Hf in Hs. destruct Hs as (pre & post & E & H1 & H2 & H3).
    exists pre, post. split; [exact E|]. split; [split; assumption|]. exact H3.
  - intros cs m pathname Hf. unfold findContract in Hf.
    pose proof (findContract_loop_spec (toUpperCase m) pathname cs) as Hs.
    rewrite Hf in Hs. exact Hs.
  - apply matchPathPattern_spec. reflexivity.
  - rewrite <- matchPathPattern_spec. discriminate.
  - intros A B m pathname [Hm Hp]. unfold findContract. simpl.
    rewrite Hm, String.eqb_refl. simpl.
    apply matchPathPattern_spec in Hp. rewrite Hp. reflexivity.
Qed.

(** Claim C4 fails as worded: an empty segment between two slashes is
    dropped too, so '/api//users' matches the pattern '/api/users',
    which the leading/trailing rule of the claim rejects (three segments
    against two). *)
Lemma findContract_ignores_inner_empty_segments :
  findContract [mk_contract "GET" "/api/users"] "GET" "/api//users"
    = Some (mk_contract "GET" "/api/users") /\
  claim_match "/api//users" "/api/users" = false /\
  ~ (forall pathname pattern,
       matchPathPattern pathname pattern = claim_match pathname pattern).
Proof.
  split; [reflexivity|]. split; [reflexivity|].
  intros H. specialize (H "/api//users" "/api/users"). vm_compute in H. discriminate.
Qed.

(** ** Body-kind classification *)

Lemma inferBodyKindFromContentType_not_empty (ct : option string) :
  inferBodyKindFromContentType ct <> BKempty.
Proof.
  unfold inferBodyKindFromContentType.
  repeat match goal with |- context [if ?b then _ else _] => destruct b end;
    discriminate.
Qed.

(** Claim C9 (as amended). For requests, a null or undefined raw payload
    gives 'empty'; a structural raw payload (stream, FormData,
    URLSearchParams, Blob/ArrayBuffer/view) decides the kind whatever the
    content type; otherwise a content type with a known primary media type
    decides it; otherwise the parsed body decides ([request_shape_kind]):
    null or undefined gives 'empty', a string 'text', a binary-marker object
    'binary', anything else 'unknown'.  For responses, a null or undefined
    captured body gives 'empty' whatever the content type; otherwise the
    content type decides first, then the shape ([response_shape_kind]:
    string 'text', binary-marker object 'binary', else 'unknown').  An
    empty string body is not absent and is classified like any other
    string, never as 'empty'. *)
Theorem body_kind_priority :
  (forall ct src pb, bodySource_nullish src = true -> inferRequestBodyKind ct src pb = BKempty) /\
  (forall ct src pb k, structural_kind src = Some k -> inferRequestBodyKind ct src pb = k) /\
  (forall ct s pb, inferBodyKindFromContentType ct <> BKunknown ->
     inferRequestBodyKind ct (BSString s) pb = inferBodyKindFromContentType ct) /\
  (forall ct s pb, inferBodyKindFromContentType ct = BKunknown ->
     inferRequestBodyKind ct (BSString s) pb = request_shape_kind pb) /\
  (forall ct pb, is_nullish pb = true -> inferResponseBodyKind ct pb = BKempty) /\
  (forall ct pb, is_nullish pb = false -> inferBodyKindFromContentType ct <> BKunknown ->
     inferResponseBodyKind ct pb = inferBodyKindFromContentType ct) /\
  (forall ct pb, is_nullish pb = false -> inferBodyKindFromContentType ct = BKunknown ->
     inferResponseBodyKind ct pb = response_shape_kind pb) /\
  (forall ct, inferRequestBodyKind ct (BSString "") (JStr "") <> BKempty) /\
  (forall ct, inferResponseBodyKind ct (JStr "") <> BKempty).
Proof.
  pose proof inferBodyKindFromContentType_not_empty as Hne.
  split; [|split; [|split; [|split; [|split; [|split; [|split; [|split]]]]]]].
  - intros ct src pb Hn. rewrite inferRequestBodyKind_order, Hn. reflexivity.
  - intros ct src pb k Hk. rewrite inferRequestBodyKind_order, Hk.
    destruct src; try discriminate; reflexivity.
  - intros ct s pb Hu. rewrite inferRequestBodyKind_order. simpl.
    destruct (BodyKind_eqb _ BKunknown) eqn:E; [|reflexivity].
    apply BodyKind_eqb_spec in E. contradiction.
  - intros ct s pb Hu. rewrite inferRequestBodyKind_order. simpl.
    rewrite Hu. reflexivity.
  - intros ct pb Hn. rewrite inferResponseBodyKind_order, Hn. reflexivity.
  - intros ct pb Hn Hu. rewrite inferResponseBodyKind_order, Hn.
    destruct (BodyKind_eqb _ BKunknown) eqn:E; [|reflexivity].
    apply BodyKind_eqb_spec in E. contradiction.
  - intros ct pb Hn Hu. rewrite inferResponseBodyKind_order, Hn, Hu. reflexivity.
  - intros ct. rewrite inferRequestBodyKind_order. simpl.
    destruct (BodyKind_eqb _ BKunknown); [discriminate | apply Hne].
  - intros ct. rewrite inferResponseBodyKind_order. simpl.
    destruct (BodyKind_eqb _ BKunknown); [discriminate | apply Hne].
Qed.

(** A request body "null" under a JSON media type with no kind of its own
    ([application/json-patch+json]) is parsed to [null], which the shape
    step classifies 'empty'. *)
Lemma null_json_patch_body_is_empty :
  inferBodyKindFromContentType (Some "application/json-patch+json") = BKunknown /\
  @parseBody sample_runtime (BSString "null") (Some "application/json-patch+json") = JNull /\
  @requestBodyKind sample_runtime (Some "application/json-patch+json") (BSString "null")
  = BKempty.
Proof. split; [|split]; vm_compute; reflexivity. Qed.

(** Claim C9 fails as worded: an empty body is 'empty' only when it is
    absent.  An empty [text/plain] response body is captured as the
    string "" and classified 'text'; so is a request sent with body "". *)
Lemma empty_string_body_is_text :
  @captured_body_kind sample_runtime 0 empty_text_heap = Some BKtext /\
  @requestBodyKind sample_runtime None (BSString "") = BKtext /\
  @requestBodyKind sample_runtime (Some "text/html") (BSString "") = BKhtml.
Proof. split; [|split]; vm_compute; reflexivity. Qed.

(* ------------------------------------------------------------------ *)
(** ** Lifecycle of the pipeline (src/unnamed/part_001, part_002, contract-validator.ts) *)

Lemma cleanup_current_inv (w : World) (k : nat) :
  pipeline_inv w -> currentCleanup w = Some k ->
  pipeline_inv (cleanup k w) /\ currentCleanup (cleanup k w) = None /\
  fresh (cleanup k w) = fresh w.
Proof.
  intros [Hfr Hm] Hc. rewrite Hc in Hm.
  destruct Hm as (Hg & Hk & Hoth & (val & Hv & Hir & Hhr) & Hvoth).
  unfold cleanup. rewrite Hc.
  unfold detach. rewrite Hv, Hir, Hhr.
  unfold interceptor_off, update_listeners. rewrite Hk. simpl.
  unfold uninstall, set_validator_refs, set_validators, set_interceptors. simpl.
  rewrite lookup_insert_eq. simpl.
  rewrite Nat.eqb_refl. simpl.
  split; [|split; reflexivity].
  split; simpl.
  - intros i Hi. destruct (Hfr i Hi) as [H1 H2].
    assert (i <> k). { intros ->. congruence. }
    rewrite !lookup_insert_ne by congruence. done.
  - split; [done|]. split.
    + intros i it. destruct (decide (i = k)) as [->|Hne].
      * rewrite lookup_insert_eq. intros [= <-]. done.
      * rewrite !lookup_insert_ne by congruence. apply Hoth; done.
    + intros v val'. destruct (decide (v = k)) as [->|Hne].
      * rewrite lookup_insert_eq. intros [= <-]. done.
      * rewrite lookup_insert_ne by congruence. apply Hvoth; done.
Qed.

Lemma set_currentCleanup_id (w : World) : set_currentCleanup w (currentCleanup w) = w.
Proof. destruct w; reflexivity. Qed.

Lemma register_idle_inv (w : World) (contracts : list ContractDefinition) (cb : OnViolation) :
  pipeline_inv w -> currentCleanup w = None -> contracts <> [] ->
  pipeline_inv (fst (register (CfgObject (Some contracts)) cb w)) /\
  snd (register (CfgObject (Some contracts)) cb w) = Registered (fresh w).
Proof.
  intros [Hfr Hm] Hc Hne. rewrite Hc in Hm. destruct Hm as (Hg & Hinst & Hdet).
  destruct (Hfr (fresh w) (le_n _)) as [Hi0 Hv0].
  destruct contracts as [|c cs]; [done|].
  unfold register. rewrite Hc. simpl.
  unfold install. simpl. rewrite lookup_insert_eq. simpl.
  unfold attach. simpl. rewrite lookup_insert_eq. simpl.
  unfold interceptor_on, update_listeners, set_validator_refs. simpl.
  rewrite lookup_insert_eq. simpl.
  try (rewrite decide_False by apply not_elem_of_nil); simpl.
  split; [|reflexivity].
  split; simpl.
  - intros i Hi. destruct (Hfr i ltac:(lia)) as [H1 H2].
    rewrite !lookup_insert_ne by lia. done.
  - rewrite Hg. split; [done|]. split; [by rewrite lookup_insert_eq|]. split.
    + intros i it Hik. rewrite !lookup_insert_ne by congruence. apply Hinst.
    + split.
      * eexists. rewrite lookup_insert_eq. split; [reflexivity|]. split; reflexivity.
      * intros v val Hvk. rewrite !lookup_insert_ne by congruence. apply Hdet.
Qed.

Lemma pipeline_inv_preserved (w : World) :
  pipeline_inv w ->
  (forall cfg cb, pipeline_inv (fst (register cfg cb w))) /\
  pipeline_inv (unregister w) /\
  (forall k, (forall k', currentCleanup w = Some k' -> k' = k) ->
             pipeline_inv (handle_unregister k w)).
Proof.
  intros Hinv. split; [|split].
  - intros cfg cb.
    destruct cfg as [| |[contracts|]]; try exact Hinv.
    destruct contracts as [|c cs]; [exact Hinv|].
    destruct (currentCleanup w) as [k|] eqn:Hc.
    + destruct (cleanup_current_inv w k Hinv Hc) as (Hi1 & Hc1 & _).
      set (w1 := set_currentCleanup (cleanup k w) None).
      assert (E : w1 = cleanup k w).
      { unfold w1. rewrite <- Hc1. apply set_currentCleanup_id. }
      assert (Hreg : register (CfgObject (Some (c :: cs))) cb w =
                     register (CfgObject (Some (c :: cs))) cb w1).
      { unfold register at 1. rewrite Hc. fold w1.
        rewrite E. unfold register. rewrite Hc1. cbn. rewrite Hc1. reflexivity. }
      rewrite Hreg, E.
      apply (register_idle_inv (cleanup k w)); done.
    + apply register_idle_inv; done.
  - unfold unregister. destruct (currentCleanup w) as [k|] eqn:Hc; [|exact Hinv].
    destruct (cleanup_current_inv w k Hinv Hc) as (Hi1 & Hc1 & _).
    rewrite <- Hc1, set_currentCleanup_id. exact Hi1.
  - intros k Hk. unfold handle_unregister.
    destruct (currentCleanup w) as [k'|] eqn:Hc.
    + rewrite (Hk k' eq_refl) in Hc. apply cleanup_current_inv; done.
    + unfold cleanup. rewrite Hc. exact Hinv.
Qed.

Lemma pipeline_inv_initial : pipeline_inv initial_world.
Proof.
  split; simpl.
  - intros i _. split; apply lookup_empty.
  - split; [done|]. split; intros i it; rewrite lookup_empty; discriminate.
Qed.

Lemma pipeline_inv_run (calls : list LifecycleCall) (w : World) :
  pipeline_inv w -> pipeline_inv (run_calls calls w).
Proof.
  revert w. induction calls as [|c calls IH]; intros w Hw; simpl; [exact Hw|].
  apply IH. destruct (pipeline_inv_preserved w Hw) as (Hr & Hu & Hh).
  destruct c; simpl; [apply Hr | exact Hu|].
  destruct (currentCleanup w) as [k|] eqn:Hc; [|exact Hw].
  apply Hh. intros k' Hk'. congruence.
Qed.


(** X2: after any sequence of register, module-level unregister and unregister calls on the handle of the current registration (never on the handle of an earlier one) from the initial page, the module-level unregister() restores the native fetch, empties the registration slot, and leaves every interceptor uninstalled and every validator detached. *)
Theorem lifecycle_unregister_restores (calls : list LifecycleCall) :
  let w := unregister (run_calls calls initial_world) in
  globalFetch w = NativeFetch /\ currentCleanup w = None /\
  (forall i it, interceptors w !! i = Some it -> installed it = false) /\
  (forall v val, validators w !! v = Some val -> interceptorRef val = None).
Proof.
  simpl. pose proof (pipeline_inv_run calls initial_world pipeline_inv_initial) as Hw.
  destruct (pipeline_inv_preserved _ Hw) as (_ & Hu & _).
  assert (Hc : currentCleanup (unregister (run_calls calls initial_world)) = None).
  { unfold unregister. destruct (currentCleanup (run_calls calls initial_world)) eqn:E; [reflexivity | exact E]. }
  destruct Hu as [_ Hm]. rewrite Hc in Hm. destruct Hm as (? & ? & ?). done.
Qed.

Lemma world_eta (w : World) :
  {| globalFetch := globalFetch w; interceptors := interceptors w; validators := validators w;
     currentCleanup := currentCleanup w; fresh := fresh w |} = w.
Proof. destruct w; reflexivity. Qed.

(** X3: for a constructed, not yet installed interceptor, install() is idempotent and makes the global fetch its wrapper, uninstall() after install() restores the world exactly, and uninstall() before any install() does nothing. *)
Theorem install_uninstall_roundtrip (i : nat) (w : World) (ls : list nat) :
  interceptors w !! i = Some {| installed := false; originalFetch := None; listeners := ls |} ->
  install i (install i w) = install i w /\
  globalFetch (install i w) = WrappedFetch i /\
  uninstall i (install i w) = w /\
  uninstall i w = w.
Proof.
  intros Hi.
  assert (E : install i w = set_globalFetch (set_interceptors w
             (<[i := {| installed := true; originalFetch := Some (globalFetch w);
                        listeners := ls |}]> (interceptors w))) (WrappedFetch i)).
  { unfold install. rewrite Hi. reflexivity. }
  rewrite E. split; [|split; [reflexivity|split]].
  - unfold install. simpl. rewrite lookup_insert_eq. reflexivity.
  - unfold uninstall, set_globalFetch, set_interceptors. simpl.
    rewrite lookup_insert_eq. simpl.
    rewrite insert_insert_eq, insert_id by exact Hi. apply world_eta.
  - unfold uninstall. rewrite Hi. reflexivity.
Qed.

(** X4: when two fresh interceptors a and b are installed in the order a, b and uninstalled in the order a, b, the global fetch is left as a's wrapper while a is marked uninstalled. *)
Theorem uninstall_out_of_order_leaves_stale_wrapper (a b : nat) (w : World) (la lb : list nat) :
  a <> b ->
  interceptors w !! a = Some {| installed := false; originalFetch := None; listeners := la |} ->
  interceptors w !! b = Some {| installed := false; originalFetch := None; listeners := lb |} ->
  let w' := uninstall b (uninstall a (install b (install a w))) in
  globalFetch w' = WrappedFetch a /\
  option_map installed (interceptors w' !! a) = Some false.
Proof.
  intros Hab Ha Hb. simpl.
  unfold uninstall, install, set_globalFetch, set_interceptors.
  repeat (simpl; first [ rewrite lookup_insert_eq | rewrite lookup_insert_ne by congruence
                       | rewrite Ha | rewrite Hb ]).
  split; reflexivity.
Qed.

Lemma filter_neq_notin (h : nat) (ls : list nat) :
  h ∉ ls -> List.filter (fun x => negb (Nat.eqb x h)) ls = ls.
Proof.
  induction ls as [|x ls IH]; intros Hn; [done|]. simpl.
  apply not_elem_of_cons in Hn as [Hx Hn].
  destruct (Nat.eqb_spec x h); [congruence|]. simpl. f_equal. auto.
Qed.

Lemma interceptor_on_eq (i h : nat) (w : World) (it : Interceptor) :
  interceptors w !! i = Some it -> h ∉ listeners it ->
  interceptor_on i h w = set_interceptors w
    (<[i := {| installed := installed it; originalFetch := originalFetch it;
               listeners := (listeners it ++ [h])%list |}]> (interceptors w)).
Proof.
  intros Hi Hn. unfold interceptor_on, update_listeners. rewrite Hi.
  rewrite decide_False by exact Hn. reflexivity.
Qed.

Lemma interceptor_on_off_cancel (i h : nat) (w : World) (it : Interceptor) :
  interceptors w !! i = Some it -> h ∉ listeners it ->
  interceptor_off i h (interceptor_on i h w) = w.
Proof.
  intros Hi Hn. rewrite (interceptor_on_eq i h w it Hi Hn).
  unfold interceptor_off, update_listeners, set_interceptors. simpl.
  rewrite lookup_insert_eq. simpl.
  rewrite List.filter_app. simpl. rewrite Nat.eqb_refl. simpl.
  rewrite app_nil_r, filter_neq_notin by exact Hn.
  destruct it; simpl.
  rewrite insert_insert_eq, insert_id by exact Hi. apply world_eta.
Qed.

(** X5: subscribing a listener not yet subscribed appends it once (a second on() is a no-op), and off() right after on() restores the world exactly. *)
Theorem on_off_roundtrip (i h : nat) (w : World) (it : Interceptor) :
  interceptors w !! i = Some it -> h ∉ listeners it ->
  interceptor_on i h (interceptor_on i h w) = interceptor_on i h w /\
  option_map listeners (interceptors (interceptor_on i h w) !! i)
    = Some (listeners it ++ [h])%list /\
  interceptor_off i h (interceptor_on i h w) = w.
Proof.
  intros Hi Hn. split; [|split].
  - rewrite (interceptor_on_eq i h w it Hi Hn).
    unfold interceptor_on, update_listeners, set_interceptors. simpl.
    rewrite lookup_insert_eq. simpl.
    rewrite decide_True by (apply elem_of_app; right; constructor).
    rewrite insert_insert_eq. reflexivity.
  - rewrite (interceptor_on_eq i h w it Hi Hn). simpl. rewrite lookup_insert_eq. reflexivity.
  - apply (interceptor_on_off_cancel i h w it); done.
Qed.

(** X6: attaching a detached validator to an interceptor appends its handler to the listeners, a second attach (to any interceptor) is a no-op, and detach() right after attach() restores the world exactly. *)
Theorem attach_detach_roundtrip (v i : nat) (w : World) (val : Validator) (it : Interceptor) :
  validators w !! v = Some val -> interceptorRef val = None -> handlerRef val = None ->
  interceptors w !! i = Some it -> v ∉ listeners it ->
  (forall j, attach v j (attach v i w) = attach v i w) /\
  option_map listeners (interceptors (attach v i w) !! i) = Some (listeners it ++ [v])%list /\
  detach v (attach v i w) = w.
Proof.
  intros Hv Hir Hhr Hi Hn.
  assert (E : attach v i w = interceptor_on i v (set_validator_refs v val (Some i) (Some v) w)).
  { unfold attach. rewrite Hv, Hir. reflexivity. }
  assert (Hi' : interceptors (set_validator_refs v val (Some i) (Some v) w) !! i = Some it)
    by exact Hi.
  assert (Hv' : validators (attach v i w) !! v =
                Some {| v_contracts := v_contracts val; v_onViolation := v_onViolation val;
                        interceptorRef := Some i; handlerRef := Some v |}).
  { rewrite E. unfold interceptor_on, update_listeners. rewrite Hi'.
    destruct (decide _); simpl; apply lookup_insert_eq. }
  split; [|split].
  - intros j. unfold attach at 1. rewrite Hv'. reflexivity.
  - rewrite E, (interceptor_on_eq i v _ it Hi' Hn). simpl. rewrite lookup_insert_eq. reflexivity.
  - unfold detach. rewrite Hv'. simpl. rewrite E, (interceptor_on_off_cancel i v _ it Hi' Hn).
    unfold set_validator_refs, set_validators. simpl.
    destruct val as [vc vo vir vhr]; simpl in *; subst vir vhr.
    rewrite insert_insert_eq, insert_id by exact Hv. apply world_eta.
Qed.

(* ------------------------------------------------------------------ *)
(** ** The contract builder (src/src/config/builder.ts) *)

Lemma pushContract_to_partial (cs : list ContractDefinition) (c : ContractDefinition) :
  pushContract cs (to_partial c) = (cs ++ [c])%list.
Proof. destruct c; reflexivity. Qed.

Lemma set_field_to_partial (call : BuilderCall) (c : ContractDefinition) :
  set_field call (to_partial c) = to_partial (apply_setter c call).
Proof. destruct c, call; reflexivity. Qed.

Lemma builder_step_setter (st : BuilderState) (call : BuilderCall) :
  is_route call = false ->
  st_contracts (builder_step st call) = st_contracts st /\
  st_current (builder_step st call) = set_field call (st_current st).
Proof.
  intros Hr. destruct call; try discriminate; simpl; split; try reflexivity.
  destruct (st_current st); reflexivity.
Qed.

Lemma builder_setters_fold (setters : list BuilderCall) (st : BuilderState)
    (c : ContractDefinition) :
  Forall (fun x => is_route x = false) setters -> st_current st = to_partial c ->
  st_contracts (fold_left builder_step setters st) = st_contracts st /\
  st_current (fold_left builder_step setters st) = to_partial (fold_left apply_setter setters c).
Proof.
  revert st c. induction setters as [|x xs IH]; intros st c Hall Hc; simpl; [done|].
  inversion Hall as [|? ? Hx Hxs]; subst.
  destruct (builder_step_setter st x Hx) as [E1 E2].
  destruct (IH (builder_step st x) (apply_setter c x) Hxs) as [F1 F2].
  { rewrite E2, Hc. apply set_field_to_partial. }
  rewrite F1, E1. done.
Qed.

Lemma toUpperCase_verb_name (v : HttpVerb) : toUpperCase (verb_name v) = verb_name v.
Proof. destruct v; reflexivity. Qed.

Lemma builder_route_append (calls setters : list BuilderCall) (v : HttpVerb)
    (p : string) :
  Forall (fun x => is_route x = false) setters ->
  cfg_contracts (defineContractConfig (calls ++ BRoute v p :: setters)) =
  (cfg_contracts (defineContractConfig calls) ++
   [fold_left apply_setter setters (mk_contract (verb_name v) p)])%list.
Proof.
  intros Hs. unfold defineContractConfig. rewrite fold_left_app. simpl.
  set (st0 := fold_left builder_step calls _).
  destruct (builder_setters_fold setters (start (verb_name v) p st0)
              (mk_contract (verb_name v) p) Hs) as [E1 E2].
  { simpl. rewrite toUpperCase_verb_name. reflexivity. }
  rewrite E2, pushContract_to_partial, E1. reflexivity.
Qed.

Lemma pushContract_no_method (cs : list ContractDefinition) (c : PartialContract) :
  p_method c = None -> pushContract cs c = cs.
Proof. intros H. unfold pushContract. rewrite H. reflexivity. Qed.

Lemma set_field_method (call : BuilderCall) (c : PartialContract) :
  p_method (set_field call c) = p_method c.
Proof. destruct c, call; reflexivity. Qed.

Lemma builder_sim_step (a b : BuilderState) (call : BuilderCall) :
  builder_sim a b -> builder_sim (builder_step a call) (builder_step b call).
Proof.
  intros [Hc Hcur]. destruct (is_route call) eqn:Hr.
  - destruct call; try discriminate. unfold builder_sim; simpl. split; [|left; reflexivity].
    destruct Hcur as [E | [Ea Eb]].
    + rewrite Hc, E. reflexivity.
    + rewrite !pushContract_no_method by done. exact Hc.
  - destruct (builder_step_setter a call Hr) as [A1 A2].
    destruct (builder_step_setter b call Hr) as [B1 B2].
    split; [rewrite A1, B1; exact Hc|].
    rewrite A2, B2. destruct Hcur as [E | [Ea Eb]]; [left; rewrite E; reflexivity|].
    right. rewrite !set_field_method. done.
Qed.

Lemma builder_sim_fold (calls : list BuilderCall) (a b : BuilderState) :
  builder_sim a b -> builder_sim (fold_left builder_step calls a) (fold_left builder_step calls b).
Proof.
  revert a b. induction calls as [|x xs IH]; intros a b H; simpl; [exact H|].
  apply IH, builder_sim_step, H.
Qed.

Lemma builder_setters_no_route (setters : list BuilderCall) (st : BuilderState) :
  Forall (fun x => is_route x = false) setters -> p_method (st_current st) = None ->
  st_contracts (fold_left builder_step setters st) = st_contracts st /\
  p_method (st_current (fold_left builder_step setters st)) = None.
Proof.
  revert st. induction setters as [|x xs IH]; intros st Hall Hm; simpl; [done|].
  inversion Hall as [|? ? Hx Hxs]; subst.
  destruct (builder_step_setter st x Hx) as [E1 E2].
  destruct (IH (builder_step st x) Hxs) as [F1 F2].
  { rewrite E2, set_field_method. exact Hm. }
  rewrite F1, E1. done.
Qed.

(** X8: setter calls made before the first route call do not change the built contracts. *)
Theorem builder_drops_leading_settings (setters calls : list BuilderCall) :
  Forall (fun x => is_route x = false) setters ->
  cfg_contracts (defineContractConfig (setters ++ calls)) =
  cfg_contracts (defineContractConfig calls).
Proof.
  intros Hs. unfold defineContractConfig. rewrite fold_left_app.
  destruct (builder_setters_no_route setters builder_init Hs eq_refl) as [E1 E2].
  assert (Hsim : builder_sim (fold_left builder_step setters builder_init) builder_init).
  { split; [exact E1|right; done]. }
  destruct (builder_sim_fold calls _ _ Hsim) as [F1 [F2 | [Fa Fb]]].
  - unfold builder_init in *. simpl. rewrite F1, F2. reflexivity.
  - unfold builder_init in *. simpl. rewrite !pushContract_no_method by done. exact F1.
Qed.

Lemma builder_no_route_empty (calls : list BuilderCall) :
  existsb is_route calls = false -> cfg_contracts (defineContractConfig calls) = [].
Proof.
  intros H. assert (Hall : Forall (fun x => is_route x = false) calls).
  { apply Forall_forall. intros x Hx. destruct (is_route x) eqn:E; [|done].
    exfalso. assert (existsb is_route calls = true)
      by (apply existsb_exists; exists x; split; [apply list_elem_of_In; exact Hx | exact E]).
    congruence. }
  unfold defineContractConfig.
  destruct (builder_setters_no_route calls builder_init Hall eq_refl) as [E1 E2].
  unfold builder_init in *. rewrite pushContract_no_method by exact E2. exact E1.
Qed.

Lemma builder_route_nonempty (calls : list BuilderCall) :
  existsb is_route calls = true -> cfg_contracts (defineContractConfig calls) <> [].
Proof.
  intros H.
  assert (Hsplit : exists pre v p post, calls = (pre ++ BRoute v p :: post)%list /\
                     Forall (fun x => is_route x = false) post).
  { clear -H. induction calls as [|x xs IH] using rev_ind; [discriminate|].
    rewrite existsb_app in H. simpl in H.
    destruct (is_route x) eqn:Ex.
    - destruct x as [| | | | | | | | | | |vb pth]; try discriminate. exists xs, vb, pth, []. split; [done | constructor].
    - rewrite orb_false_r in H. destruct (IH H) as (pre & v & p & post & -> & Hp).
      exists pre, v, p, (post ++ [x])%list. split.
      + rewrite <- app_assoc. reflexivity.
      + apply Forall_app. split; [done | constructor; [done | constructor]]. }
  destruct Hsplit as (pre & v & p & post & -> & Hp).
  rewrite builder_route_append by exact Hp.
  intros E. apply app_eq_nil in E as [_ E]. discriminate.
Qed.

(** X9: register accepts the contracts built by defineContractConfig if and only if the builder callback made at least one route call. *)
Theorem builder_config_registers (calls : list BuilderCall) (cb : OnViolation) (w : World) :
  (exists n, snd (register (CfgObject (Some (cfg_contracts (defineContractConfig calls)))) cb w)
             = Registered n) <-> existsb is_route calls = true.
Proof.
  split.
  - intros [n Hn]. destruct (existsb is_route calls) eqn:E; [done|].
    rewrite builder_no_route_empty in Hn by exact E. discriminate.
  - intros H. pose proof (builder_route_nonempty calls H) as Hne.
    destruct (cfg_contracts (defineContractConfig calls)) as [|c cs]; [done|].
    unfold register. eexists. reflexivity.
Qed.

(** X7: a route call followed by setter calls only adds exactly one contract at the end of the built list: the route's method and path with the setters applied in order (a later setter of the same field wins). *)
Theorem builder_route_appends_contract (calls setters : list BuilderCall) (v : HttpVerb)
    (p : string) :
  Forall (fun x => is_route x = false) setters ->
  cfg_contracts (defineContractConfig (calls ++ BRoute v p :: setters)) =
  (cfg_contracts (defineContractConfig calls) ++
   [fold_left apply_setter setters (mk_contract (verb_name v) p)])%list.
Proof. apply builder_route_append. Qed.

(* ------------------------------------------------------------------ *)
(** ** Paths into JSON values (src/src/validation/schema-validator.ts) *)

Lemma getValueAtPath_fold (root : JsVal) (p : string) :
  getValueAtPath root p =
  fold_left getValueAtPath_step (filter_nonempty (split_char "/" p)) root.
Proof.
  unfold getValueAtPath.
  destruct (String.eqb_spec p "") as [->|]; [reflexivity|].
  destruct (String.eqb_spec p "/") as [->|]; reflexivity.
Qed.

Lemma split_char_nonnil (c : ascii) (s : string) : split_char c s <> [].
Proof.
  induction s as [|a s IH]; simpl; [discriminate|].
  destruct (Ascii.eqb a c); [discriminate|].
  destruct (split_char c s); discriminate.
Qed.

Lemma split_char_app (c : ascii) (s1 s2 : string) :
  split_char c (s1 ++ String c s2) = (split_char c s1 ++ split_char c s2)%list.
Proof.
  induction s1 as [|a s1 IH]; simpl.
  - rewrite Ascii.eqb_refl. reflexivity.
  - rewrite IH. destruct (Ascii.eqb a c); [reflexivity|].
    pose proof (split_char_nonnil c s1) as Hn.
    destruct (split_char c s1); [done | reflexivity].
Qed.

Lemma filter_nonempty_app (l1 l2 : list string) :
  filter_nonempty (l1 ++ l2) = (filter_nonempty l1 ++ filter_nonempty l2)%list.
Proof. apply List.filter_app. Qed.

Lemma digits_value_char (d : nat) (s : string) (k : nat) :
  (d < 10)%nat ->
  digits_value (String (ascii_of_nat (48 + d)) s) k = digits_value s (k * 10 + d).
Proof.
  intros Hd. cbn [digits_value]. rewrite nat_ascii_embedding by lia.
  replace (k * 10 + (48 + d - 48))%nat with (k * 10 + d)%nat by lia. reflexivity.
Qed.

Lemma nat_to_dec_aux_value (fuel n : nat) (acc : string) :
  (n < fuel)%nat -> digits_value (nat_to_dec_aux fuel n acc) 0 = digits_value acc n.
Proof.
  revert n acc. induction fuel as [|fuel IH]; intros n acc Hn; [lia|]. cbn [nat_to_dec_aux].
  pose proof (Nat.mod_upper_bound n 10 ltac:(lia)) as Hm.
  destruct (Nat.ltb_spec n 10) as [Hlt|Hge].
  - rewrite digits_value_char by exact Hm. f_equal.
    rewrite Nat.mod_small by exact Hlt. lia.
  - rewrite IH.
    + rewrite digits_value_char by exact Hm. f_equal.
      pose proof (Nat.div_mod_eq n 10). lia.
    + pose proof (Nat.div_lt n 10 ltac:(lia) ltac:(lia)). lia.
Qed.

Lemma nat_to_dec_aux_digits (fuel n : nat) (acc : string) :
  (n < fuel)%nat -> forallb digit_char (list_ascii_of_string acc) = true ->
  nat_to_dec_aux fuel n acc <> "" /\
  forallb digit_char (list_ascii_of_string (nat_to_dec_aux fuel n acc)) = true.
Proof.
  revert n acc. induction fuel as [|fuel IH]; intros n acc Hn Hacc; [lia|].
  cbn [nat_to_dec_aux].
  pose proof (Nat.mod_upper_bound n 10 ltac:(lia)) as Hm.
  assert (Hd : forallb digit_char
                 (list_ascii_of_string (String (ascii_of_nat (48 + n mod 10)) acc)) = true).
  { cbn [list_ascii_of_string forallb]. rewrite Hacc, andb_true_r. unfold digit_char.
    rewrite nat_ascii_embedding by lia.
    apply andb_true_intro; split; apply Nat.leb_le; lia. }
  destruct (Nat.ltb_spec n 10) as [Hlt|Hge].
  - split; [discriminate | exact Hd].
  - apply IH; [|exact Hd]. pose proof (Nat.div_lt n 10 ltac:(lia) ltac:(lia)). lia.
Qed.

Lemma Z_to_dec_of_nat (n : nat) : Z_to_dec (Z.of_nat n) = nat_to_dec_aux (S n) n "".
Proof.
  unfold Z_to_dec.
  destruct (Z.ltb_spec (Z.of_nat n) 0) as [H|H]; [lia|].
  rewrite Z.abs_eq, Nat2Z.id by lia. reflexivity.
Qed.

(** [Number(String(n)) = n] and [String(n)] is all digits. *)
Lemma Z_to_dec_digits (n : nat) :
  all_digits (Z_to_dec (Z.of_nat n)) = true /\ digits_value (Z_to_dec (Z.of_nat n)) 0 = n.
Proof.
  rewrite Z_to_dec_of_nat.
  destruct (nat_to_dec_aux_digits (S n) n "" ltac:(lia) eq_refl) as [Hne Hd].
  split.
  - unfold all_digits. apply andb_true_intro. split; [|exact Hd].
    destruct (String.eqb_spec (nat_to_dec_aux (S n) n "") ""); done.
  - rewrite nat_to_dec_aux_value by lia. reflexivity.
Qed.

(** X10: getValueAtPath on a path p ++ "/" ++ q is getValueAtPath of q on the result for p, and the empty path returns the root. *)
Theorem getValueAtPath_compose (root : JsVal) (p q : string) :
  getValueAtPath root (p ++ "/" ++ q) = getValueAtPath (getValueAtPath root p) q /\
  getValueAtPath root "" = root.
Proof.
  split; [|reflexivity].
  rewrite !getValueAtPath_fold. change ("/" ++ q) with (String "/" q).
  rewrite split_char_app, filter_nonempty_app, fold_left_app. reflexivity.
Qed.

Lemma split_slash_digits (s : string) :
  forallb digit_char (list_ascii_of_string s) = true -> split_char "/" s = [s].
Proof.
  induction s as [|a s IH]; intros H; [reflexivity|].
  cbn [list_ascii_of_string forallb] in H. apply andb_prop in H as [Ha Hs].
  cbn [split_char]. rewrite (IH Hs).
  destruct (Ascii.eqb_spec a "/") as [->|]; [discriminate|reflexivity].
Qed.

Lemma all_digits_spec (s : string) :
  all_digits s = true <-> s <> "" /\ forallb digit_char (list_ascii_of_string s) = true.
Proof.
  unfold all_digits. rewrite andb_true_iff, negb_true_iff.
  destruct (String.eqb_spec s ""); split; intros [H1 H2]; try done; split; done.
Qed.

(** X11: for n below 2^53 (where Number(seg) is exact and String(n) is the decimal numeral), an all-digit segment String(n) reads index n of an array (undefined beyond its end) and property String(n) of an object; a leading zero is dropped by Number(seg), so "/0" ++ String(n) reads the same property. *)
Theorem getValueAtPath_index (xs : list JsVal) (o : list (string * JsVal)) (n : nat) :
  (Z.of_nat n < 2 ^ 53)%Z ->
  let key := Z_to_dec (Z.of_nat n) in
  getValueAtPath (JArr xs) ("/" ++ key) =
    match nth_error xs n with Some v => v | None => JUndefined end /\
  getValueAtPath (JObj o) ("/" ++ key) = prop o key /\
  getValueAtPath (JObj o) ("/0" ++ key) = prop o key.
Proof.
  intros _ key. destruct (Z_to_dec_digits n) as [Hd Hv]. fold key in Hd, Hv.
  pose proof Hd as Hd'. apply all_digits_spec in Hd' as [Hne Hf].
  assert (H0 : all_digits (String "0" key) = true).
  { apply all_digits_spec. split; [discriminate|]. exact Hf. }
  assert (Hv0 : digits_value (String "0" key) 0 = n) by exact Hv.
  rewrite !getValueAtPath_fold.
  change ("/" ++ key) with (String "/" key).
  change ("/0" ++ key) with (String "/" (String "0" key)).
  assert (Hs : forall t, forallb digit_char (list_ascii_of_string t) = true -> t <> "" ->
            filter_nonempty (split_char "/" (String "/" t)) = [t]).
  { intros t Ht Htne. cbn [split_char]. rewrite Ascii.eqb_refl, split_slash_digits by exact Ht.
    unfold filter_nonempty. simpl. destruct (String.eqb_spec t ""); done. }
  rewrite (Hs key Hf Hne), (Hs (String "0" key)) by (exact Hf || discriminate).
  cbn [fold_left getValueAtPath_step]. rewrite Hd, H0, Hv, Hv0. fold key. done.
Qed.

(** X12: on a value that is not an object or array, every path with at least one non-empty segment gives undefined. *)
Theorem getValueAtPath_primitive (v : JsVal) (p : string) :
  match v with JObj _ | JArr _ => False | _ => True end ->
  filter_nonempty (split_char "/" p) <> [] ->
  getValueAtPath v p = JUndefined.
Proof.
  intros Hv Hp. rewrite getValueAtPath_fold.
  destruct (filter_nonempty (split_char "/" p)) as [|seg segs]; [done|]. simpl.
  assert (E : getValueAtPath_step v seg = JUndefined) by (destruct v; done).
  rewrite E. clear. induction segs; simpl; done.
Qed.

(* ------------------------------------------------------------------ *)
(** ** URLs, cookies, headers and request serialization (src/src/types/index.ts) *)

Lemma prop_set_prop (r : list (string * JsVal)) (k k' : string) (v : JsVal) :
  prop (set_prop r k v) k' = if String.eqb k' k then v else prop r k'.
Proof.
  induction r as [|[k0 v0] r IH]; simpl.
  - reflexivity.
  - destruct (String.eqb_spec k k0) as [<-|Hne]; simpl.
    + destruct (String.eqb k' k); reflexivity.
    + rewrite IH. destruct (String.eqb_spec k' k0) as [->|]; [|reflexivity].
      destruct (String.eqb_spec k0 k); congruence.
Qed.

Lemma values_for_snoc {A} (k : string) (entries : list (string * A)) (k0 : string) (v0 : A) :
  values_for k (entries ++ [(k0, v0)]) =
  (if String.eqb k0 k then values_for k entries ++ [v0] else values_for k entries)%list.
Proof.
  unfold values_for. rewrite List.filter_app, map_app. simpl.
  destruct (String.eqb k0 k); simpl; [reflexivity|by rewrite app_nil_r].
Qed.

Lemma grouped_snoc (vs : list string) (v : string) :
  grouped (vs ++ [v]) =
  match grouped vs with
  | JUndefined => JStr v
  | JArr xs => JArr (xs ++ [JStr v])
  | existing => JArr [existing; JStr v]
  end%list.
Proof.
  destruct vs as [|a [|b rest]]; simpl; try reflexivity.
  destruct rest; simpl; [reflexivity|].
  rewrite map_app. reflexivity.
Qed.

Lemma query_fold_grouped (entries : list (string * string)) (k : string) :
  prop (fold_left query_step entries []) k = grouped (values_for k entries).
Proof.
  induction entries as [|[k0 v0] entries IH] using rev_ind; [reflexivity|].
  rewrite fold_left_app, values_for_snoc. simpl.
  destruct (String.eqb_spec k0 k) as [->|Hne].
  - rewrite grouped_snoc, <- IH.
    destruct (prop (fold_left query_step entries []) k) eqn:E;
      rewrite prop_set_prop, String.eqb_refl; reflexivity.
  - rewrite <- IH.
    destruct (prop (fold_left query_step entries []) k0);
      rewrite prop_set_prop; apply String.eqb_neq in Hne;
      rewrite String.eqb_sym, Hne; reflexivity.
Qed.

Lemma formdata_step_prop (r : list (string * JsVal)) (k0 k : string) (v0 : FormValue) :
  prop (formdata_step r (k0, v0)) k =
  if String.eqb k0 k then formdata_key_step (prop r k) v0 else prop r k.
Proof.
  unfold formdata_step.
  destruct (String.eqb_spec k0 k) as [->|Hne].
  - destruct v0; [destruct (prop r k)|]; rewrite prop_set_prop, String.eqb_refl; reflexivity.
  - assert (E : String.eqb k k0 = false) by (apply String.eqb_neq; congruence).
    destruct v0; [destruct (prop r k0)|]; rewrite prop_set_prop, E; reflexivity.
Qed.

Lemma formdata_fold_local (entries : list (string * FormValue)) (r : list (string * JsVal)) (k : string) :
  prop (fold_left formdata_step entries r) k =
  fold_left formdata_key_step (values_for k entries) (prop r k).
Proof.
  revert r. induction entries as [|[k0 v0] entries IH]; intros r; [reflexivity|].
  cbn [fold_left]. rewrite IH, formdata_step_prop. unfold values_for. cbn [List.filter map fst].
  destruct (String.eqb k0 k); reflexivity.
Qed.

Lemma formdata_strings_grouped (vs : list string) :
  fold_left formdata_key_step (map FVString vs) JUndefined = grouped vs.
Proof.
  induction vs as [|v vs IH] using rev_ind; [reflexivity|].
  rewrite map_app, fold_left_app, IH, grouped_snoc. simpl.
  destruct (grouped vs); reflexivity.
Qed.

Lemma urlsearchparams_fold_last (entries : list (string * string)) (r : list (string * JsVal)) (k : string) :
  prop (fold_left (fun r kv => set_prop r (fst kv) (JStr (snd kv))) entries r) k =
  match rev (values_for k entries) with [] => prop r k | v :: _ => JStr v end.
Proof.
  revert r. induction entries as [|[k0 v0] entries IH]; intros r; [reflexivity|].
  simpl. rewrite IH. unfold values_for. simpl.
  rewrite prop_set_prop.
  destruct (String.eqb_spec k0 k) as [->|Hne]; simpl.
  - rewrite String.eqb_refl.
    destruct (rev (map snd (List.filter (fun kv => String.eqb (fst kv) k) entries))); reflexivity.
  - assert (E : String.eqb k k0 = false) by (apply String.eqb_neq; congruence).
    rewrite E. reflexivity.
Qed.

Lemma indexOf_lt (c : ascii) (s : string) (n : nat) :
  indexOf c s = Some n -> (n < String.length s)%nat.
Proof.
  revert n. induction s as [|a s IH]; intros n H; simpl in H; [discriminate|].
  destruct (Ascii.eqb a c); [injection H as <-; simpl; lia|].
  destruct (indexOf c s) as [m|] eqn:E; simpl in H; [|discriminate].
  injection H as <-. specialize (IH m eq_refl). simpl. lia.
Qed.

Lemma indexOf_char (c : ascii) (s : string) (n : nat) :
  indexOf c s = Some n -> String.get n s = Some c.
Proof.
  revert n. induction s as [|a s IH]; intros n H; simpl in H; [discriminate|].
  destruct (Ascii.eqb_spec a c) as [->|]; [injection H as <-; reflexivity|].
  destruct (indexOf c s) as [m|] eqn:E; simpl in H; [|discriminate].
  injection H as <-. simpl. apply IH. reflexivity.
Qed.

Lemma string_app_cons (a : ascii) (s t : string) : String a s ++ t = String a (s ++ t).
Proof. reflexivity. Qed.

Lemma substring_split (s : string) (i j : nat) :
  (i <= j)%nat -> (j <= String.length s)%nat ->
  substring i (j - i) s ++ substring j (String.length s - j) s =
  substring i (String.length s - i) s.
Proof.
  revert i j. induction s as [|a s IH]; intros i j Hij Hj; simpl in *.
  - assert (j = 0)%nat by lia. subst. destruct i; [reflexivity|lia].
  - destruct i as [|i].
    + destruct j as [|j]; simpl; [reflexivity|].
      specialize (IH 0%nat j ltac:(lia) ltac:(lia)).
      rewrite !Nat.sub_0_r in IH. rewrite string_app_cons, IH. reflexivity.
    + destruct j as [|j]; [lia|]. simpl. apply IH; lia.
Qed.

Lemma substring_full (s : string) : substring 0 (String.length s) s = s.
Proof. induction s; simpl; [reflexivity|by rewrite IHs]. Qed.

Lemma slice_split (s : string) (i j : nat) :
  (i <= j)%nat -> (j <= String.length s)%nat ->
  slice s i j ++ slice_from s j = slice_from s i.
Proof. intros. unfold slice, slice_from. by apply substring_split. Qed.

Lemma slice_from_0 (s : string) : slice_from s 0 = s.
Proof. unfold slice_from. rewrite Nat.sub_0_r. apply substring_full. Qed.

Lemma fold_cookie_none `{Runtime} (l : list string) :
  fold_left cookie_pair_step l None = None.
Proof. induction l; simpl; [reflexivity|exact IHl]. Qed.

Lemma fold_cookie_fails `{Runtime} (l : list string) (pair : string) (eq : nat)
    (acc : option (list (string * JsVal))) :
  In pair l -> indexOf "=" pair = Some eq ->
  trim (slice pair 0 eq) <> "" ->
  (decodeURIComponent (trim (slice pair 0 eq)) = None \/
   decodeURIComponent (trim (slice_from pair (S eq))) = None) ->
  fold_left cookie_pair_step l acc = None.
Proof.
  intros Hin Heq Hk Hdec. revert acc.
  induction l as [|p l IH]; intros acc; [destruct Hin|].
  simpl. destruct Hin as [->|Hin]; [|apply IH; exact Hin].
  assert (E : cookie_pair_step acc pair = None).
  { unfold cookie_pair_step. destruct acc; [|reflexivity].
    rewrite Heq. apply String.eqb_neq in Hk. rewrite Hk.
    destruct Hdec as [D|D].
    - rewrite D. reflexivity.
    - destruct (decodeURIComponent (trim (slice pair 0 eq))); [rewrite D|]; reflexivity. }
  rewrite E. apply fold_cookie_none.
Qed.

Lemma index_keys_prop_nondigit {A} (f : A -> JsVal) (k : string) (i : nat) (xs : list A) :
  all_digits k = false ->
  prop (index_keys i (map f xs)) k = JUndefined.
Proof.
  intros Hk. revert i. induction xs as [|x xs IH]; intros i; [reflexivity|].
  simpl. destruct (String.eqb_spec k (Z_to_dec (Z.of_nat i))) as [->|]; [|apply IH].
  destruct (Z_to_dec_digits i) as [Hd _]. congruence.
Qed.

Lemma string_app_nil_r (s : string) : s ++ "" = s.
Proof. induction s as [|a s IH]; [reflexivity|by rewrite string_app_cons, IH]. Qed.

Lemma prop_record_missing (fields : list (string * string)) (k : string) :
  ~ In k (map fst fields) ->
  prop (map (fun kv => (fst kv, JStr (snd kv))) fields) k = JUndefined.
Proof.
  induction fields as [|[k0 v0] fields IH]; intros Hn; [reflexivity|].
  simpl in *. destruct (String.eqb_spec k k0) as [->|]; [tauto|].
  apply IH. tauto.
Qed.

Lemma get_slice_from (s : string) (q : nat) :
  (q < String.length s)%nat -> String.get 0 (slice_from s q) = String.get q s.
Proof.
  intros Hq. unfold slice_from. rewrite substring_correct1 by lia. reflexivity.
Qed.

(** X13: when new URL succeeds and no query key is an Object.prototype property or __proto__, parseUrl's queryParams has as own property of each key its single value as a string, or all of its values in order as an array when it occurs more than once. *)
Theorem parseUrl_query_groups `{UrlRuntime} (u : string) (x : URLRecord) :
  u <> "" -> new_URL (trim u) "http://_" = Some x ->
  forallb (fun kv => not_prototype_key (fst kv)) (u_searchParams x) = true ->
  exists r, queryParams_of (parseUrl u None) = JObj r /\
            forall k, prop r k = grouped (values_for k (u_searchParams x)).
Proof.
  intros Hu Hx _. unfold parseUrl.
  apply String.eqb_neq in Hu. rewrite Hu, Hx. simpl.
  eexists. split; [reflexivity|]. intros k. apply query_fold_grouped.
Qed.

(** X14: for a URLSearchParams body, parseBody keeps only the last value of every key (no arrays, unlike parseUrl's queryParams). *)
Theorem parseBody_urlsearchparams_last `{Runtime} (entries : list (string * string))
    (ct : option string) (k : string) :
  exists r, parseBody (BSURLSearchParams entries) ct = JObj r /\
            prop r k = match rev (values_for k entries) with [] => JUndefined | v :: _ => JStr v end.
Proof.
  eexists. split; [reflexivity|]. apply urlsearchparams_fold_last.
Qed.

(** X15: for a FormData body whose keys are not Object.prototype properties or __proto__, a key whose entries are all strings gets as own property its single value, or an array of all its values in order. *)
Theorem parseBody_formdata_strings `{Runtime} (entries : list (string * FormValue))
    (ct : option string) (k : string) (vs : list string) :
  forallb (fun kv => not_prototype_key (fst kv)) entries = true ->
  values_for k entries = map FVString vs ->
  exists r, parseBody (BSFormData entries) ct = JObj r /\ prop r k = grouped vs.
Proof.
  intros _ Hv. eexists. split; [reflexivity|].
  rewrite formdata_fold_local, Hv. apply formdata_strings_grouped.
Qed.

(** X16: for a FormData body whose keys are not Object.prototype properties or __proto__, a file entry after string entries of the same key keeps those strings before the file descriptor only if there were two or more of them; a single earlier string is dropped. *)
Theorem parseBody_formdata_file_after_strings `{Runtime} (entries : list (string * FormValue))
    (ct : option string) (k : string) (vs : list string) (n t : string) (sz : Z) :
  forallb (fun kv => not_prototype_key (fst kv)) entries = true ->
  values_for k entries = (map FVString vs ++ [FVFile n t sz])%list ->
  exists r, parseBody (BSFormData entries) ct = JObj r /\
    prop r k = JArr ((match vs with [_] => [] | _ => map JStr vs end) ++
                     [JObj [("name", JStr n); ("type", JStr t); ("size", JNum sz)]])%list.
Proof.
  intros _ Hv. eexists. split; [reflexivity|].
  rewrite formdata_fold_local, Hv, fold_left_app. simpl prop.
  rewrite formdata_strings_grouped.
  destruct vs as [|a [|b rest]]; reflexivity.
Qed.

(** X17: when new URL throws and no '#' comes before the first '?', parseUrl returns no protocol, host or query params, and the URL is the pathname part (or "/" for an empty one) followed by search and fragment. *)
Theorem parseUrl_fallback_reassembles `{UrlRuntime} (u : string) :
  u <> "" -> new_URL (trim u) "http://_" = None ->
  ~ (exists q h, indexOf "?" u = Some q /\ indexOf "#" u = Some h /\ (h < q)%nat) ->
  exists pre, u = pre ++ search (parseUrl u None) ++ fragment (parseUrl u None) /\
              pathname (parseUrl u None) = or_str pre "/" /\
              protocol (parseUrl u None) = "" /\ host (parseUrl u None) = "" /\
              queryParams_of (parseUrl u None) = JObj [].
Proof.
  intros Hu Hx Hord.
  assert (E : parseUrl u None = parseUrl_fallback u).
  { unfold parseUrl. apply String.eqb_neq in Hu. rewrite Hu, Hx. reflexivity. }
  rewrite E. unfold parseUrl_fallback.
  destruct (indexOf "?" u) as [q|] eqn:Hq; destruct (indexOf "#" u) as [h|] eqn:Hh; simpl.
  - assert (Hlq := indexOf_lt _ _ _ Hq). assert (Hlh := indexOf_lt _ _ _ Hh).
    assert (q <> h).
    { intros ->. apply indexOf_char in Hq, Hh. congruence. }
    assert (Hlt : (q < h)%nat).
    { destruct (Nat.lt_ge_cases q h); [assumption|].
      exfalso. apply Hord. exists q, h. repeat split; auto. lia. }
    apply Nat.ltb_lt in Hlt as Hb. rewrite Hb.
    exists (slice u 0 q). repeat split; try reflexivity.
    rewrite slice_split by lia. rewrite slice_split by lia. symmetry. apply slice_from_0.
  - exists (slice u 0 q). repeat split; try reflexivity.
    rewrite string_app_nil_r, slice_split by (pose proof (indexOf_lt _ _ _ Hq); lia).
    symmetry. apply slice_from_0.
  - exists (slice u 0 h). repeat split; try reflexivity.
    simpl. rewrite slice_split by (pose proof (indexOf_lt _ _ _ Hh); lia).
    symmetry. apply slice_from_0.
  - exists u. repeat split; try reflexivity. simpl. symmetry. apply string_app_nil_r.
Qed.

(** X18: when new URL throws and a '#' comes before the first '?', the search parseUrl returns starts with '?' and is also the tail of the returned fragment. *)
Theorem parseUrl_fallback_query_in_fragment `{UrlRuntime} (u : string) (q h : nat) :
  u <> "" -> new_URL (trim u) "http://_" = None ->
  indexOf "?" u = Some q -> indexOf "#" u = Some h -> (h < q)%nat ->
  String.get 0 (search (parseUrl u None)) = Some "?"%char /\
  exists mid, fragment (parseUrl u None) = mid ++ search (parseUrl u None).
Proof.
  intros Hu Hx Hq Hh Hlt.
  assert (E : parseUrl u None = parseUrl_fallback u).
  { unfold parseUrl. apply String.eqb_neq in Hu. rewrite Hu, Hx. reflexivity. }
  assert (Hlq := indexOf_lt _ _ _ Hq).
  rewrite E. unfold parseUrl_fallback. rewrite Hq, Hh. simpl.
  assert (Hb : (q <? h)%nat = false) by (apply Nat.ltb_ge; lia). rewrite Hb.
  split.
  - rewrite get_slice_from by exact Hlq. apply indexOf_char. exact Hq.
  - exists (slice u h q). symmetry. apply slice_split; lia.
Qed.

(** X19: for any input and init, if the cookie header serializeRequest reads (headers["cookie"], or headers["Cookie"] when that is null or undefined) is a string with a pair whose name is non-empty and whose name or value decodeURIComponent rejects, serializeRequest throws. *)
Theorem serializeRequest_cookie_decode_error `{Runtime} `{UrlRuntime} (input : FetchInput)
    (init : option RequestInit) (now : Z) (c pair : string) (eq : nat) :
  let headers := headersToRecord
                   (match input with
                    | FIRequest r => HSHeaders (rq_headers r)
                    | _ => match init with Some i => init_headers i | None => HSNullish end
                    end) in
  nullish_or (prop headers "cookie") (prop headers "Cookie") = JStr c ->
  In pair (map trim (split_char ";" c)) -> indexOf "=" pair = Some eq ->
  trim (slice pair 0 eq) <> "" ->
  (decodeURIComponent (trim (slice pair 0 eq)) = None \/
   decodeURIComponent (trim (slice_from pair (S eq))) = None) ->
  serializeRequest input init now = None.
Proof.
  intros headers Hc Hin Heq Hk Hdec. subst headers. unfold serializeRequest. cbv beta zeta.
  rewrite Hc. unfold parseCookieHeader.
  destruct (String.eqb_spec c "") as [->|Hne].
  - simpl in Hin. destruct Hin as [<-|[]]. discriminate.
  - erewrite fold_cookie_fails; eauto.
Qed.

(** X20: for a Request input, serializeRequest ignores init and serializes as the Request's url with its method, headers and body. *)
Theorem serializeRequest_request_ignores_init `{Runtime} `{UrlRuntime} (r : RequestObj)
    (i : option RequestInit) (now : Z) :
  serializeRequest (FIRequest r) i now =
  serializeRequest (FIString (rq_url r))
    (Some {| init_method := Some (rq_method r); init_headers := HSHeaders (rq_headers r);
             init_body := if rq_hasBody r then BSReadableStream else BSNull |}) now.
Proof. reflexivity. Qed.

(** X21: headers given as an array of pairs are spread into index keys, so neither content type nor cookies are found: a string body stays unparsed with kind text, and cookies are empty. *)
Theorem serializeRequest_pair_headers_ignored `{Runtime} `{UrlRuntime} (url : string)
    (m : option string) (ps : list (string * string)) (s : string) (now : Z) :
  exists sr, serializeRequest (FIString url)
               (Some {| init_method := m; init_headers := HSPairs ps; init_body := BSString s |}) now
             = Some sr /\
             sr_cookies sr = [] /\ sr_body sr = JStr s /\ sr_bodyKind sr = BKtext.
Proof.
  unfold serializeRequest. cbv beta zeta iota. cbn [init_headers init_body init_method].
  unfold headersToRecord, getContentType, nullish_or. cbv beta iota.
  rewrite !(index_keys_prop_nondigit _ _ 0) by reflexivity.
  simpl. eexists. split; [reflexivity|]. repeat split.
Qed.

(** X22: with record headers that have no key spelled exactly content-type or Content-Type, a string body is kept as the raw string with kind text, even if it is JSON. *)
Theorem serializeRequest_content_type_case `{Runtime} `{UrlRuntime} (url : string)
    (m : option string) (fields : list (string * string)) (s : string) (now : Z)
    (sr : SerializedRequest) :
  ~ In "content-type" (map fst fields) -> ~ In "Content-Type" (map fst fields) ->
  serializeRequest (FIString url)
    (Some {| init_method := m; init_headers := HSRecord fields; init_body := BSString s |}) now
  = Some sr ->
  sr_body sr = JStr s /\ sr_bodyKind sr = BKtext.
Proof.
  intros H1 H2. unfold serializeRequest. cbv beta zeta iota. cbn [init_headers init_body init_method].
  unfold headersToRecord, getContentType, nullish_or. cbv beta iota.
  rewrite (prop_record_missing fields "content-type" H1), (prop_record_missing fields "Content-Type" H2). simpl is_nullish. cbv iota.
  destruct (parseCookieHeader _); intros E; [|discriminate].
  injection E as <-. split; reflexivity.
Qed.

(* ------------------------------------------------------------------ *)
(** ** Error lines (src/src/validation/reporting.ts) *)

Lemma map_chars_app (f : ascii -> ascii) (s t : string) :
  map_chars f (s ++ t) = map_chars f s ++ map_chars f t.
Proof. induction s as [|a s IH]; [reflexivity|]. rewrite string_app_cons. simpl. by rewrite IH. Qed.

Lemma slashes_to_dots_noslash (s : string) :
  indexOf "/" s = None -> slashes_to_dots s = s.
Proof.
  unfold slashes_to_dots. induction s as [|a s IH]; intros H; [reflexivity|].
  simpl in H. destruct (Ascii.eqb a "/") eqn:E; [discriminate|].
  simpl. rewrite E, IH; [reflexivity|]. destruct (indexOf "/" s); [discriminate|reflexivity].
Qed.

Lemma slashes_to_dots_join (segs : list string) :
  Forall (fun s => indexOf "/" s = None) segs ->
  slashes_to_dots (join "/" segs) = join "." segs.
Proof.
  induction 1 as [|x rest Hx Hrest IH]; [reflexivity|].
  destruct rest as [|y rest'].
  - simpl. apply slashes_to_dots_noslash. exact Hx.
  - change (join "/" (x :: y :: rest')) with (x ++ "/" ++ join "/" (y :: rest')).
    change (join "." (x :: y :: rest')) with (x ++ "." ++ join "." (y :: rest')).
    unfold slashes_to_dots in *. rewrite !map_chars_app, IH.
    fold (slashes_to_dots x). rewrite slashes_to_dots_noslash by exact Hx. reflexivity.
Qed.

Lemma join_head (sep x : string) (rest : list string) :
  exists t, join sep (x :: rest) = x ++ t.
Proof.
  destruct rest as [|y rest]; [exists ""; simpl; symmetry; apply string_app_nil_r|].
  exists (sep ++ join sep (y :: rest)). reflexivity.
Qed.

(** X23: for an error whose path is '/' followed by slash-free segments, the first of them non-empty, formatErrorLine names the field by the segments joined with dots, followed by the expected and received types, or by the message when nothing was received. *)
Theorem formatErrorLine_field (e : ValidationErrorItem) (segs : list string) :
  item_path e = Some ("/" ++ join "/" segs) ->
  Forall (fun s => indexOf "/" s = None) segs ->
  head segs <> Some "" -> segs <> [] ->
  formatErrorLine e =
  join "." segs ++
  match item_received e with
  | JUndefined => ": " ++ item_message e
  | r => ": expected " ++ formatExpected e ++ ", received " ++ formatReceivedType r
  end.
Proof.
  intros Hp Hf Hh Hne. unfold formatErrorLine. rewrite Hp.
  destruct segs as [|x rest]; [congruence|].
  destruct x as [|a x0]; [simpl in Hh; congruence|].
  inversion Hf as [|? ? Hx Hrest]; subst.
  assert (Ha : Ascii.eqb a "/" = false).
  { simpl in Hx. destruct (Ascii.eqb a "/"); [discriminate|reflexivity]. }
  destruct (join_head "/" (String a x0) rest) as [t Ht].
  assert (E1 : slice_from ("/" ++ join "/" (String a x0 :: rest)) 1 = join "/" (String a x0 :: rest)).
  { unfold slice_from. simpl. rewrite Nat.sub_0_r. apply substring_full. }
  assert (E0 : String.eqb ("/" ++ join "/" (String a x0 :: rest)) "" = false) by reflexivity.
  assert (E0' : startsWith ("/" ++ join "/" (String a x0 :: rest)) "/" = true)
    by (unfold startsWith; destruct (join "/" (String a x0 :: rest)); reflexivity).
  rewrite E0, E0', E1, Ht.
  assert (E2 : drop_leading_slash (String a x0 ++ t) = String a x0 ++ t).
  { simpl. rewrite Ha. reflexivity. }
  rewrite E2, <- Ht, slashes_to_dots_join by exact Hf.
  destruct (join_head "." (String a x0) rest) as [t' Ht']. rewrite Ht'.
  assert (E3 : String.eqb (String a x0 ++ t') "" = false) by reflexivity.
  rewrite E3.
  destruct (item_received e); reflexivity.
Qed.

Lemma formatErrorLine_field_witness :
  formatErrorLine sample_error_item =
  join "." ["0"; "id"] ++
  match item_received sample_error_item with
  | JUndefined => ": " ++ item_message sample_error_item
  | r => ": expected " ++ formatExpected sample_error_item ++ ", received " ++ formatReceivedType r
  end.
Proof.
  apply (formatErrorLine_field sample_error_item ["0"; "id"]);
    [reflexivity | repeat constructor | discriminate | discriminate].
Defined.

(* ------------------------------------------------------------------ *)
(** ** Evaluations on sample inputs *)

Lemma install_uninstall_roundtrip_witness :
  interceptors fresh_world !! 0 = Some {| installed := false; originalFetch := None; listeners := [] |} /\
  install 0 (install 0 fresh_world) = install 0 fresh_world /\
  globalFetch (install 0 fresh_world) = WrappedFetch 0 /\
  uninstall 0 (install 0 fresh_world) = fresh_world /\
  uninstall 0 fresh_world = fresh_world.
Proof.
  split; [reflexivity|]. apply (install_uninstall_roundtrip 0 fresh_world []). reflexivity.
Defined.

Lemma uninstall_out_of_order_leaves_stale_wrapper_witness :
  let w' := uninstall 1 (uninstall 0 (install 1 (install 0 fresh_world))) in
  globalFetch w' = WrappedFetch 0 /\
  option_map installed (interceptors w' !! 0) = Some false.
Proof.
  apply (uninstall_out_of_order_leaves_stale_wrapper 0 1 fresh_world [] []);
    [discriminate | reflexivity | reflexivity].
Defined.

Lemma on_off_roundtrip_witness :
  interceptor_on 0 7 (interceptor_on 0 7 fresh_world) = interceptor_on 0 7 fresh_world /\
  option_map listeners (interceptors (interceptor_on 0 7 fresh_world) !! 0) = Some [7] /\
  interceptor_off 0 7 (interceptor_on 0 7 fresh_world) = fresh_world.
Proof.
  apply (on_off_roundtrip 0 7 fresh_world
           {| installed := false; originalFetch := None; listeners := [] |});
    [reflexivity | apply not_elem_of_nil].
Defined.

Lemma attach_detach_roundtrip_witness :
  (forall j, attach 0 j (attach 0 1 fresh_world) = attach 0 1 fresh_world) /\
  option_map listeners (interceptors (attach 0 1 fresh_world) !! 1) = Some [0] /\
  detach 0 (attach 0 1 fresh_world) = fresh_world.
Proof.
  apply (attach_detach_roundtrip 0 1 fresh_world
           {| v_contracts := [status_contract]; v_onViolation := None;
              interceptorRef := None; handlerRef := None |}
           {| installed := false; originalFetch := None; listeners := [] |});
    [reflexivity | reflexivity | reflexivity | reflexivity | apply not_elem_of_nil].
Defined.

Lemma builder_route_appends_contract_witness :
  cfg_contracts (defineContractConfig
    ([BRoute VGet "/a"; BResponseStatusCodes [200%Z]] ++
     BRoute VPost "/b" :: [BLabel "create"; BResponseStatusCodes [201%Z]])) =
  (cfg_contracts (defineContractConfig [BRoute VGet "/a"; BResponseStatusCodes [200%Z]]) ++
   [fold_left apply_setter [BLabel "create"; BResponseStatusCodes [201%Z]]
      (mk_contract (verb_name VPost) "/b")])%list.
Proof.
  apply builder_route_appends_contract. repeat constructor.
Defined.

Lemma builder_drops_leading_settings_witness :
  cfg_contracts (defineContractConfig ([BPort 3000%Z; BLabel "x"] ++ [BRoute VGet "/a"])) =
  cfg_contracts (defineContractConfig [BRoute VGet "/a"]).
Proof.
  apply builder_drops_leading_settings. repeat constructor.
Defined.

Lemma getValueAtPath_primitive_witness :
  getValueAtPath (JNum 3) "/a/0" = JUndefined.
Proof.
  apply getValueAtPath_primitive; [exact I | vm_compute; discriminate].
Defined.

Lemma getValueAtPath_index_witness :
  (Z.of_nat 1 < 2 ^ 53)%Z /\
  getValueAtPath (JArr [JNum 5; JNum 6]) ("/" ++ Z_to_dec (Z.of_nat 1)) = JNum 6 /\
  getValueAtPath (JObj [("1", JStr "x")]) ("/" ++ Z_to_dec (Z.of_nat 1)) = JStr "x" /\
  getValueAtPath (JObj [("1", JStr "x")]) ("/0" ++ Z_to_dec (Z.of_nat 1)) = JStr "x".
Proof.
  split; [lia|].
  apply (getValueAtPath_index [JNum 5; JNum 6] [("1", JStr "x")] 1); lia.
Defined.

Lemma parseUrl_query_groups_witness :
  exists r, queryParams_of (@parseUrl url_table_runtime
                              "  http://api.test/items?tag=a&page=2&tag=b" None) = JObj r /\
            forall k, prop r k =
                      grouped (values_for k [("tag", "a"); ("page", "2"); ("tag", "b")]).
Proof.
  apply (@parseUrl_query_groups url_table_runtime
           "  http://api.test/items?tag=a&page=2&tag=b"
           {| u_protocol := "http:"; u_hostname := "api.test"; u_port := "";
              u_pathname := "/items"; u_search := "?tag=a&page=2&tag=b"; u_hash := "";
              u_searchParams := [("tag", "a"); ("page", "2"); ("tag", "b")] |});
    [discriminate | vm_compute; reflexivity | vm_compute; reflexivity].
Defined.

Lemma parseBody_formdata_strings_witness :
  exists r, @parseBody sample_runtime
              (BSFormData [("a", FVString "1"); ("f", FVFile "x.png" "image/png" 10);
                           ("a", FVString "2")]) None = JObj r /\
            prop r "a" = grouped ["1"; "2"].
Proof.
  apply (@parseBody_formdata_strings sample_runtime); vm_compute; reflexivity.
Defined.

Lemma parseBody_formdata_file_after_strings_witness :
  exists r, @parseBody sample_runtime
              (BSFormData [("a", FVString "note"); ("a", FVFile "x.png" "image/png" 10)]) None
            = JObj r /\
            prop r "a" = JArr [JObj [("name", JStr "x.png"); ("type", JStr "image/png");
                                     ("size", JNum 10)]].
Proof.
  apply (@parseBody_formdata_file_after_strings sample_runtime _ None "a" ["note"]);
    vm_compute; reflexivity.
Defined.

Lemma parseUrl_fallback_reassembles_witness :
  exists pre, "/a?x=1#top" = pre ++ search (@parseUrl url_table_runtime "/a?x=1#top" None)
                               ++ fragment (@parseUrl url_table_runtime "/a?x=1#top" None) /\
              pathname (@parseUrl url_table_runtime "/a?x=1#top" None) = or_str pre "/" /\
              protocol (@parseUrl url_table_runtime "/a?x=1#top" None) = "" /\
              host (@parseUrl url_table_runtime "/a?x=1#top" None) = "" /\
              queryParams_of (@parseUrl url_table_runtime "/a?x=1#top" None) = JObj [].
Proof.
  apply (@parseUrl_fallback_reassembles url_table_runtime);
    [discriminate | vm_compute; reflexivity |].
  intros (q & h & Hq & Hh & Hlt). vm_compute in Hq, Hh.
  injection Hq as <-. injection Hh as <-. lia.
Defined.

Lemma parseUrl_fallback_query_in_fragment_witness :
  String.get 0 (search (@parseUrl url_table_runtime "/a#s?x=1" None)) = Some "?"%char /\
  exists mid, fragment (@parseUrl url_table_runtime "/a#s?x=1" None) =
              mid ++ search (@parseUrl url_table_runtime "/a#s?x=1" None).
Proof.
  apply (@parseUrl_fallback_query_in_fragment url_table_runtime "/a#s?x=1" 4 2);
    [discriminate | vm_compute; reflexivity | vm_compute; reflexivity
    | vm_compute; reflexivity | lia].
Defined.

Lemma serializeRequest_cookie_decode_error_witness :
  @serializeRequest strict_decode_runtime url_table_runtime (FIString "/a")
    (Some upper_cookie_init) 0 = None.
Proof.
  apply (@serializeRequest_cookie_decode_error strict_decode_runtime url_table_runtime
           (FIString "/a") (Some upper_cookie_init) 0 "a=1; b=%" "b=%" 1);
    [vm_compute; reflexivity | vm_compute; tauto | vm_compute; reflexivity
    | vm_compute; discriminate | right; vm_compute; reflexivity].
Defined.

Lemma serializeRequest_content_type_case_witness :
  exists sr, @serializeRequest sample_runtime url_table_runtime (FIString "/a")
               (Some mixed_case_init) 0 = Some sr /\
             sr_body sr = JStr "true" /\ sr_bodyKind sr = BKtext.
Proof.
  destruct (@serializeRequest sample_runtime url_table_runtime (FIString "/a")
              (Some mixed_case_init) 0) as [sr|] eqn:E.
  - exists sr. split; [reflexivity|].
    apply (@serializeRequest_content_type_case sample_runtime url_table_runtime
             "/a" (Some "POST") [("Content-type", "application/json")] "true" 0 sr);
      [ intros [Hk|[]]; discriminate | intros [Hk|[]]; discriminate | exact E ].
  - vm_compute in E. discriminate.
Defined.
